(** * errprops: key/value properties on Go errors

    A shallow embedding of [errors.go] of github.com/zach-klippenstein/errprops.

    The package decorates an [error] with key/value pairs ([From],
    [WithValue]) and looks a key up along the chain of causes ([Get]).
    Go interface values, run-time panics, the two decorator types
    ([baseError], [*keyValueError]) and the formatting methods are modelled
    below, in the order of the source file. *)

From Stdlib Require Import ZArith String Ascii List Lia Bool.
From Stdlib Require Import SpecFloat DecimalString.
From stdpp Require Import base list.
From Equations Require Import Equations.
Import ListNotations.

Local Open Scope Z_scope.

(** ** Go values *)

Module Go.

(** A run-time panic of the Go program. *)
Inductive panic : Type :=
| NilDereference      (* method call through a nil interface value *)
| UncomparableType.   (* [==] on interfaces holding an uncomparable type *)

(** The outcome of a Go call: a normal return, or a panic. *)
Inductive result (A : Type) : Type :=
| Ok (a : A)
| Panic (p : panic).
Arguments Ok {A} a.
Arguments Panic {A} p.

Definition bind {A B : Type} (r : result A) (k : A -> result B) : result B :=
  match r with
  | Ok a => k a
  | Panic p => Panic p
  end.

Definition returns {A : Type} (r : result A) : Prop := exists a, r = Ok a.

(** The dynamic values an [interface{}] key or value holds.  The model has
    the nil interface, three comparable basic types, [float64] (comparable,
    but a NaN differs from itself) and [[]int], a type that is not
    comparable. Keys and values are never used in arithmetic, so an [int] is
    an unbounded [Z] here. *)
Inductive iface : Type :=
| INil
| IBool (b : bool)
| IInt (n : Z)
| IString (s : string)
| IFloat64 (x : spec_float)
| ISlice (xs : list Z).

(** Go's [a == b] on two interface values: false when the dynamic types
    differ, the comparison of the values when the types agree and are
    comparable, a run-time panic when they agree and are not. *)
Definition iface_eq (a b : iface) : result bool :=
  match a, b with
  | INil, INil => Ok true
  | IBool x, IBool y => Ok (Bool.eqb x y)
  | IInt x, IInt y => Ok (Z.eqb x y)
  | IString x, IString y => Ok (String.eqb x y)
  | IFloat64 x, IFloat64 y => Ok (SFeqb x y)
  | ISlice _, ISlice _ => Panic UncomparableType
  | _, _ => Ok false
  end.

(** A rune is an [int32] code point. *)
Definition rune : Type := Z.

Definition byte_of_Z (b : Z) : ascii := ascii_of_N (Z.to_N b).

(** [string(r)] for a rune [r]: its UTF-8 encoding, U+FFFD for a value that
    is not a valid code point. *)
Definition encodeRune (r : rune) : string :=
  if (r <? 0) || (0x10FFFF <? r) || ((0xD800 <=? r) && (r <=? 0xDFFF)) then
    String (byte_of_Z 0xEF) (String (byte_of_Z 0xBF) (String (byte_of_Z 0xBD) EmptyString))
  else if r <? 0x80 then
    String (byte_of_Z r) EmptyString
  else if r <? 0x800 then
    String (byte_of_Z (Z.lor 0xC0 (Z.shiftr r 6)))
      (String (byte_of_Z (Z.lor 0x80 (Z.land r 0x3F))) EmptyString)
  else if r <? 0x10000 then
    String (byte_of_Z (Z.lor 0xE0 (Z.shiftr r 12)))
      (String (byte_of_Z (Z.lor 0x80 (Z.land (Z.shiftr r 6) 0x3F)))
         (String (byte_of_Z (Z.lor 0x80 (Z.land r 0x3F))) EmptyString))
  else
    String (byte_of_Z (Z.lor 0xF0 (Z.shiftr r 18)))
      (String (byte_of_Z (Z.lor 0x80 (Z.land (Z.shiftr r 12) 0x3F)))
         (String (byte_of_Z (Z.lor 0x80 (Z.land (Z.shiftr r 6) 0x3F)))
            (String (byte_of_Z (Z.lor 0x80 (Z.land r 0x3F))) EmptyString))).

Definition rune_of_ascii (a : ascii) : rune := Z.of_N (N_of_ascii a).

(** [fmt.State] as seen by a [Format] method: the flags, width and precision
    of the directive.  What is written to it is returned by the formatting
    functions as a string. *)
Record State : Type := {
  Flag : rune -> bool;
  Width : option Z;
  Precision : option Z
}.

(** [errors.Stacktrace]: a slice of program counters, [None] for the nil
    slice. *)
Definition Stacktrace : Type := option (list Z).

End Go.
Export Go.

(** ** Error values *)

(** An error type from outside the package.  [Error()] is its message; each
    optional capability is present ([Some]) or not ([None]): [hasProps]
    (line 57), [hasStacktrace] (line 53) and [fmt.Formatter].  [hasCause]
    is the constructor [wrapping] of [error] below.  The methods of such a
    type are taken to return: a panic inside one of them is the caller's. *)
Record Foreign : Type := {
  f_Error : string;
  f_Get : option (iface -> iface * bool);
  f_Stacktrace : option Stacktrace;
  f_Format : option (State -> rune -> string)
}.

(** An [error] interface value, and a [PropError] (line 73) interface value.
    Only the package can build a [PropError]: its two implementations are
    [baseError] (line 132) and [*keyValueError] (line 174).  An error is
    finite, so the cause relation has no cycle. *)
Inductive error : Type :=
| nil_error                                  (* the nil interface *)
| opaque (x : Foreign)                       (* no Cause method *)
| wrapping (x : Foreign) (cause : error)     (* Cause() returns [cause] *)
| prop (p : PropError)
with PropError : Type :=
| baseError (err : error)
| keyValueError (prev : PropError) (key value : iface).

Scheme error_mut := Induction for error Sort Prop
with PropError_mut := Induction for PropError Sort Prop.
Combined Scheme error_PropError_ind from error_mut, PropError_mut.

(** The value [nil, false] of a failed lookup. *)
Definition notFound : result (iface * bool) := Ok (INil, false).

(** *** Methods of the two decorators *)

(** [Error()], promoted from the embedded interface in both structs
    (lines 133 and 175): the call reaches the wrapped error, and panics when
    that is nil. *)
Fixpoint PropError_Error (p : PropError) : result string :=
  match p with
  | baseError err => error_Error err
  | keyValueError prev _ _ => PropError_Error prev
  end
with error_Error (err : error) : result string :=
  match err with
  | nil_error => Panic NilDereference
  | opaque x => Ok (f_Error x)
  | wrapping x _ => Ok (f_Error x)
  | prop p => PropError_Error p
  end.

(** [Cause()]: [baseError.Cause] (line 136), promoted in [keyValueError].
    [hasCause err] is the type assertion [err.(hasCause)] followed by the
    call of [Cause()]. *)
Fixpoint PropError_Cause (p : PropError) : error :=
  match p with
  | baseError err =>
      match hasCause err with
      | Some cause => cause
      | None => nil_error
      end
  | keyValueError prev _ _ => PropError_Cause prev
  end
with hasCause (err : error) : option error :=
  match err with
  | nil_error => None
  | opaque _ => None
  | wrapping _ cause => Some cause
  | prop p => Some (PropError_Cause p)
  end.

(** [Stacktrace()]: [baseError.Stacktrace] (line 143), promoted in
    [keyValueError]. *)
Fixpoint PropError_Stacktrace (p : PropError) : Stacktrace :=
  match p with
  | baseError err =>
      match hasStacktrace err with
      | Some st => st
      | None => None
      end
  | keyValueError prev _ _ => PropError_Stacktrace prev
  end
with hasStacktrace (err : error) : option Stacktrace :=
  match err with
  | nil_error => None
  | opaque x => f_Stacktrace x
  | wrapping x _ => f_Stacktrace x
  | prop p => Some (PropError_Stacktrace p)
  end.

(** The method [Get]: [baseError.Get] (line 150) and [keyValueError.Get]
    (line 179).  [hasProps err] is the type assertion [err.(hasProps)]; the
    function it gives is the method [Get] of [err]. *)
Fixpoint PropError_Get (p : PropError) (key : iface) : result (iface * bool) :=
  match p with
  | baseError err =>
      match hasProps err with
      | Some get => get key
      | None => notFound
      end
  | keyValueError prev k v =>
      bind (iface_eq key k) (fun same =>
        if same then Ok (v, true) else PropError_Get prev key)
  end
with hasProps (err : error) : option (iface -> result (iface * bool)) :=
  match err with
  | nil_error => None
  | opaque x => option_map (fun get key => Ok (get key)) (f_Get x)
  | wrapping x _ => option_map (fun get key => Ok (get key)) (f_Get x)
  | prop p => Some (PropError_Get p)
  end.

(** [WithValue] (lines 157 and 186): both receivers build a new node whose
    predecessor is the receiver. *)
Definition WithValue (p : PropError) (key value : iface) : PropError :=
  keyValueError p key value.

(** [From] (line 96). *)
Definition From (err : error) : PropError := baseError err.

(** ** Lookup along the causes *)

Fixpoint error_size (err : error) : nat :=
  match err with
  | nil_error => 1
  | opaque _ => 1
  | wrapping _ cause => S (error_size cause)
  | prop p => S (PropError_size p)
  end
with PropError_size (p : PropError) : nat :=
  match p with
  | baseError err => S (error_size err)
  | keyValueError prev _ _ => S (PropError_size prev)
  end.

Definition is_nil (err : error) : bool :=
  match err with
  | nil_error => true
  | _ => false
  end.

Definition inspect {A : Type} (a : A) : {b : A | a = b} := exist _ a eq_refl.

Lemma Cause_smaller :
  (forall err c, hasCause err = Some c -> (error_size c < error_size err)%nat) /\
  (forall p, (error_size (PropError_Cause p) <= PropError_size p)%nat).
Proof.
  apply error_PropError_ind; simpl.
  - discriminate.
  - discriminate.
  - intros x cause _ c [= <-]. lia.
  - intros p IH c [= <-]. lia.
  - intros err IH. destruct (hasCause err) as [c|].
    + specialize (IH c eq_refl). lia.
    + simpl. lia.
  - intros prev IH _ _. lia.
Qed.

(** Lines 108-112 of [Get]: the properties of [err] itself.  [Some val] is
    the early return [val, true]; [None] falls through to the cause. *)
Definition ownValue (err : error) (key : iface) : result (option iface) :=
  match hasProps err with
  | Some get =>
      bind (get key) (fun r => if snd r then Ok (Some (fst r)) else Ok None)
  | None => Ok None
  end.

(** [Get] (line 103).  The recursive call is on the cause, which is a
    smaller error. *)
Equations? Get (err : error) (key : iface) : result (iface * bool)
  by wf (error_size err) lt :=
  Get err key with is_nil err := {
    | true := notFound
    | false with ownValue err key := {
        | Panic p := Panic p
        | Ok (Some val) := Ok (val, true)
        | Ok None with inspect (hasCause err) := {
            | exist _ (Some cause) _ := Get cause key
            | exist _ None _ := notFound } } }.
Proof. apply (proj1 Cause_smaller); assumption. Qed.

(** [GetOptional] (line 123). *)
Definition GetOptional (err : error) (key : iface) : result iface :=
  bind (Get err key) (fun r => if snd r then Ok (fst r) else Ok INil).

(** ** Formatting *)

(** The text [fmt.Fprintf] writes for a format string and its operands.  The
    package [fmt] is the Go standard library's; the decorators only build
    the format string and pass the operands on. *)
Class Printer : Type := { Sprintf : string -> list iface -> string }.

(** The state of [fmt.Fprint]: verb [v], no flag, no width, no precision. *)
Definition plainState : State :=
  {| Flag := fun _ => false; Width := None; Precision := None |}.

Definition verb_v : rune := rune_of_ascii "v".
Definition flag_plus : rune := rune_of_ascii "+".
Definition flag_sharp : rune := rune_of_ascii "#".

Section Formatting.
Context {printer : Printer}.
Local Open Scope string_scope.

(** Lines 203-210 of [formatInner]: the directive for a key and for a
    value.  [format] holds ASCII only, so appending the rune [c] to its
    runes and converting back appends the encoding of [c]. *)
Definition verbFormat (f : State) (c : rune) : string :=
  let format := "%" in
  let format :=
    if Flag f flag_plus then format ++ "+"
    else if Flag f flag_sharp then format ++ "#"
    else format in
  format ++ encodeRune c.

(** The text of one pair under the state [f] and the verb [c]. *)
Definition pairText (f : State) (c : rune) (kv : iface * iface) : string :=
  Sprintf (verbFormat f c ++ "=" ++ verbFormat f c) [fst kv; snd kv].

(** [keyValueError.formatInner] (line 202), for the node with predecessor
    [prev]. *)
Fixpoint formatInner (prev : PropError) (key value : iface)
    (f : State) (c : rune) : string :=
  let format := verbFormat f c in
  Sprintf (format ++ "=" ++ format) [key; value] ++
  match prev with
  | keyValueError prev' key' value' => "," ++ formatInner prev' key' value' f c
  | baseError _ => EmptyString
  end.

(** The bodies of [baseError.Format] (line 161) and [keyValueError.Format]
    (line 195); both end in the receiver's own [formatBaseError]. *)
Definition Format_body (formatBaseError : PropError -> State -> rune -> string)
    (p : PropError) (f : State) (c : rune) : string :=
  match p with
  | baseError _ => formatBaseError p f c
  | keyValueError prev key value =>
      "[" ++ formatInner prev key value f c ++ "] " ++ formatBaseError p f c
  end.

(** [formatBaseError] (lines 165 and 191).  [hasFormatter err] is the type
    assertion [err.(fmt.Formatter)]; [Fprint err] is what
    [fmt.Fprint(f, err)] writes: the text of the operand under the verb [v]
    without flags. *)
Fixpoint PropError_formatBaseError (p : PropError) (f : State) (c : rune) : string :=
  match p with
  | baseError err =>
      match hasFormatter err with
      | Some format => format f c
      | None => Fprint err
      end
  | keyValueError prev _ _ => PropError_formatBaseError prev f c
  end
with hasFormatter (err : error) : option (State -> rune -> string) :=
  match err with
  | nil_error => None
  | opaque x => f_Format x
  | wrapping x _ => f_Format x
  | prop p => Some (Format_body PropError_formatBaseError p)
  end
with Fprint (err : error) : string :=
  match err with
  | nil_error => "<nil>"
  | opaque x | wrapping x _ =>
      match f_Format x with
      | Some format => format plainState verb_v
      | None => f_Error x
      end
  | prop p => Format_body PropError_formatBaseError p plainState verb_v
  end.

(** [Format], by dynamic dispatch on the [PropError]. *)
Definition PropError_Format : PropError -> State -> rune -> string :=
  Format_body PropError_formatBaseError.

End Formatting.

(** ** Views of a decoration chain *)

(** The pairs of the [keyValueError] nodes of [p], newest first, up to its
    [baseError]. *)
Fixpoint pairs (p : PropError) : list (iface * iface) :=
  match p with
  | baseError _ => []
  | keyValueError prev key value => (key, value) :: pairs prev
  end.

(** The error wrapped by the [baseError] that ends the chain of [p]. *)
Fixpoint wrapped_error (p : PropError) : error :=
  match p with
  | baseError err => err
  | keyValueError prev _ _ => wrapped_error prev
  end.

(** [p.WithValue(k1, v1). ... .WithValue(kn, vn)]. *)
Definition decorate (p : PropError) (kvs : list (iface * iface)) : PropError :=
  fold_left (fun q kv => WithValue q (fst kv) (snd kv)) kvs p.

(** The first pair of [kvs] whose key [key == k] finds equal, comparing in
    order and stopping at the first match or panic; [miss] when there is
    none. *)
Fixpoint firstMatch (key : iface) (kvs : list (iface * iface))
    (miss : result (iface * bool)) : result (iface * bool) :=
  match kvs with
  | [] => miss
  | (k, v) :: rest =>
      bind (iface_eq key k) (fun same =>
        if same then Ok (v, true) else firstMatch key rest miss)
  end.

(** The method [Get] of the wrapped error where it has one. *)
Definition wrappedGet (err : error) (key : iface) : result (iface * bool) :=
  match hasProps err with
  | Some get => get key
  | None => notFound
  end.

(** What a node answers by itself: a miss, for the lookup algorithm. *)
Definition ownMiss (err : error) (key : iface) : Prop :=
  hasProps err = None \/
  exists get val, hasProps err = Some get /\ get key = Ok (val, false).

(** [key == k] returns, without panic, for every key [k] stored in the
    error: in its own pairs, in the error it wraps and in its causes. *)
Fixpoint keysCompare (key : iface) (err : error) : Prop :=
  match err with
  | nil_error => True
  | opaque _ => True
  | wrapping _ cause => keysCompare key cause
  | prop p => PropError_keysCompare key p
  end
with PropError_keysCompare (key : iface) (p : PropError) : Prop :=
  match p with
  | baseError err => keysCompare key err
  | keyValueError prev k _ =>
      returns (iface_eq key k) /\ PropError_keysCompare key prev
  end.

(** The directive that carries both detail flags of the state, as the
    specification words the threading of the flags. *)
Definition uniformFormat (f : State) (c : rune) : string :=
  ("%" ++ (if Flag f flag_plus then "+" else EmptyString)
       ++ (if Flag f flag_sharp then "#" else EmptyString)
       ++ encodeRune c)%string.

(** [s1; s2; ...] joined by [sep]. *)
Fixpoint join (sep : string) (parts : list string) : string :=
  match parts with
  | [] => EmptyString
  | [part] => part
  | part :: rest => (part ++ sep ++ join sep rest)%string
  end.

(** [x1] wrapping [x2] wrapping ... [inner]: errors from outside the package
    stacked on [inner], each with the next as its cause. *)
Definition wrapAll (xs : list Foreign) (inner : error) : error :=
  fold_right wrapping inner xs.

(** An error type from outside the package whose own [Get], where it has
    one, does not find [key]. *)
Definition foreignMiss (key : iface) (x : Foreign) : Prop :=
  match f_Get x with
  | Some get => snd (get key) = false
  | None => True
  end.

(** The errors [Get] visits (line 103): [err], its cause, the cause of its
    cause, up to the first nil or the first error without a cause. *)
Equations? causes (err : error) : list error by wf (error_size err) lt :=
  causes err with is_nil err := {
    | true := []
    | false with inspect (hasCause err) := {
        | exist _ (Some cause) _ := err :: causes cause
        | exist _ None _ := [err] } }.
Proof. apply (proj1 Cause_smaller); assumption. Qed.

(** The first own value for [key] among [errs], in order; a panic of an
    error's own [Get] ends the scan. *)
Fixpoint firstOwn (key : iface) (errs : list error) : result (iface * bool) :=
  match errs with
  | [] => notFound
  | err :: rest =>
      match ownValue err key with
      | Panic p => Panic p
      | Ok (Some val) => Ok (val, true)
      | Ok None => firstOwn key rest
      end
  end.

(** ** The decorators in a store *)

(** [WithValue] returns a pointer to a newly allocated struct.  Here the
    structs live in a store, a [PropError] is a [baseError] value or an
    address, and [WithValue] is a store transformer; [read] gives the value
    a reference stands for. *)
Module Store.

(** Addresses are indices into the store. *)
Abbreviation addr := nat (only parsing).

Inductive herror : Type :=
| h_nil
| h_opaque (x : Foreign)
| h_wrapping (x : Foreign) (cause : herror)
| h_prop (p : href)
with href : Type :=
| h_base (err : herror)      (* baseError{err} *)
| h_ptr (a : addr).          (* a *keyValueError *)

Scheme herror_mut := Induction for herror Sort Prop
with href_mut := Induction for href Sort Prop.
Combined Scheme herror_href_ind from herror_mut, href_mut.

(** The struct [keyValueError] (line 174). *)
Record node : Type := {
  n_prev : href;
  n_key : iface;
  n_value : iface
}.

Definition store : Type := list node.

(** [From] (line 96): a struct value, nothing is allocated. *)
Definition From (err : herror) : href := h_base err.

(** [WithValue] (lines 157 and 186): [&keyValueError{e, key, value}]
    allocates one struct at the next free address and writes nowhere else. *)
Definition WithValue (s : store) (e : href) (key value : iface) : href * store :=
  (h_ptr (length s), s ++ [ {| n_prev := e; n_key := key; n_value := value |} ]).

(** The errors that references stand for, given the values [den] of the
    nodes; [None] for a dangling address. *)
Fixpoint reify_error (den : list (option PropError)) (err : herror) : option error :=
  match err with
  | h_nil => Some nil_error
  | h_opaque x => Some (opaque x)
  | h_wrapping x cause => wrapping x <$> reify_error den cause
  | h_prop p => prop <$> reify_href den p
  end
with reify_href (den : list (option PropError)) (p : href) : option PropError :=
  match p with
  | h_base err => baseError <$> reify_error den err
  | h_ptr a => den !! a ≫= id
  end.

Definition node_value (den : list (option PropError)) (n : node) : option PropError :=
  prev ← reify_href den (n_prev n); Some (keyValueError prev (n_key n) (n_value n)).

(** The value of every node, in address order: a node sees the nodes
    allocated before it. *)
Definition values (s : store) : list (option PropError) :=
  fold_left (fun den n => den ++ [node_value den n]) s [].

Definition read (s : store) (p : href) : option PropError :=
  reify_href (values s) p.

Definition read_error (s : store) (err : herror) : option error :=
  reify_error (values s) err.

(** The free function [Get] (line 103) and the method [Get] on what the
    store holds. *)
Definition Get (s : store) (err : herror) (key : iface)
    : option (result (iface * bool)) :=
  e ← read_error s err; Some (Get e key).

Definition node_Get (s : store) (p : href) (key : iface)
    : option (result (iface * bool)) :=
  q ← read s p; Some (PropError_Get q key).

(** [p.WithValue(k1, v1). ... .WithValue(kn, vn)] in the store: one
    allocation for each call. *)
Definition decorate (s : store) (p : href) (kvs : list (iface * iface))
    : href * store :=
  fold_left (fun st kv => WithValue (snd st) (fst st) (fst kv) (snd kv)) kvs (p, s).

End Store.

(** ** Nil predecessors *)

(** A [PropError] as Go's types allow it, before anything is known of how it
    was built: the interface may be nil, it may hold the nil pointer of type
    [*keyValueError], and the field [PropError] of a node (line 175) may be
    either.  A method called through a nil interface panics, and so does a
    method of [*keyValueError] that reads a field of the nil pointer.  The
    error inside a [baseError] is taken as the caller gives it. *)
Module Raw.

Inductive rawProp : Type :=
| raw_nil                                     (* the nil interface *)
| raw_nilptr                                  (* the nil *keyValueError *)
| raw_base (err : error)                      (* baseError{err} *)
| raw_kv (prev : rawProp) (key value : iface). (* &keyValueError{prev, key, value} *)

(** [From] (line 96): a struct literal. *)
Definition From (err : error) : result rawProp := Ok (raw_base err).

(** [WithValue] (lines 157 and 186).  Neither body reads a field of its
    receiver; the call itself panics through a nil interface. *)
Definition WithValue (p : rawProp) (key value : iface) : result rawProp :=
  match p with
  | raw_nil => Panic NilDereference
  | _ => Ok (raw_kv p key value)
  end.

(** [Error()], promoted from the embedded field (lines 133 and 175). *)
Fixpoint Error (p : rawProp) : result string :=
  match p with
  | raw_nil | raw_nilptr => Panic NilDereference
  | raw_base err => error_Error err
  | raw_kv prev _ _ => Error prev
  end.

(** [Cause()] (line 136), promoted in [keyValueError]. *)
Fixpoint Cause (p : rawProp) : result error :=
  match p with
  | raw_nil | raw_nilptr => Panic NilDereference
  | raw_base err => Ok (PropError_Cause (baseError err))
  | raw_kv prev _ _ => Cause prev
  end.

(** [Stacktrace()] (line 143), promoted in [keyValueError]. *)
Fixpoint Stacktrace (p : rawProp) : result Go.Stacktrace :=
  match p with
  | raw_nil | raw_nilptr => Panic NilDereference
  | raw_base err => Ok (PropError_Stacktrace (baseError err))
  | raw_kv prev _ _ => Stacktrace prev
  end.

(** The method [Get] (lines 150 and 179); on the nil pointer, [e.key] is
    read for the comparison. *)
Fixpoint Get (p : rawProp) (key : iface) : result (iface * bool) :=
  match p with
  | raw_nil | raw_nilptr => Panic NilDereference
  | raw_base err => PropError_Get (baseError err) key
  | raw_kv prev k v =>
      bind (iface_eq key k) (fun same =>
        if same then Ok (v, true) else Get prev key)
  end.

Section RawFormatting.
Context {printer : Printer}.
Local Open Scope string_scope.

(** [formatBaseError] (lines 165 and 191). *)
Fixpoint formatBaseError (p : rawProp) (f : State) (c : rune) : result string :=
  match p with
  | raw_nil | raw_nilptr => Panic NilDereference
  | raw_base err => Ok (PropError_formatBaseError (baseError err) f c)
  | raw_kv prev _ _ => formatBaseError prev f c
  end.

(** [formatInner] (line 202) of the node with predecessor [prev].  The
    assertion of [e.PropError] to [*keyValueError] fails on a nil interface and
    succeeds on the nil pointer, whose [formatInner] then reads [e.key]. *)
Fixpoint formatInner (prev : rawProp) (key value : iface)
    (f : State) (c : rune) : result string :=
  let format := verbFormat f c in
  let own := Sprintf (format ++ "=" ++ format) [key; value] in
  match prev with
  | raw_kv prev' key' value' =>
      bind (formatInner prev' key' value' f c) (fun rest =>
        Ok (own ++ "," ++ rest))
  | raw_nilptr => Panic NilDereference
  | raw_nil | raw_base _ => Ok own
  end.

(** [Format] (lines 161 and 195). *)
Definition Format (p : rawProp) (f : State) (c : rune) : result string :=
  match p with
  | raw_nil | raw_nilptr => Panic NilDereference
  | raw_base _ => formatBaseError p f c
  | raw_kv prev key value =>
      bind (formatInner prev key value f c) (fun inner =>
        bind (formatBaseError p f c) (fun base =>
          Ok ("[" ++ inner ++ "] " ++ base)))
  end.

End RawFormatting.

(** The values a program gets from the package: [From(err)], and
    [p.WithValue(key, value)] for a value [p] it got before. *)
Inductive built : rawProp -> Prop :=
| built_From (err : error) (p : rawProp) :
    From err = Ok p -> built p
| built_WithValue (p q : rawProp) (key value : iface) :
    built p -> WithValue p key value = Ok q -> built q.

(** A decorated error among the raw values. *)
Fixpoint embed (p : PropError) : rawProp :=
  match p with
  | baseError err => raw_base err
  | keyValueError prev key value => raw_kv (embed prev) key value
  end.

End Raw.

(** ** A printer for the examples *)

(** A small [Sprintf]: literal text, [%%], and directives made of the flags
    [+] and [#] and a one-byte verb.  It renders nil, booleans, integers and
    strings under the verbs [v], [d], [s] and [t] as [fmt] does, for strings
    without a quote, a backslash or a control character; other verbs, floats
    and slices are outside its domain. *)
Module SimplePrinter.
Local Open Scope string_scope.

Definition quote : string := String (ascii_of_nat 34) EmptyString.

Definition decimal (n : Z) : string := NilZero.string_of_int (Z.to_int n).

Definition typeName (arg : iface) : string :=
  match arg with
  | INil => "<nil>"
  | IBool _ => "bool"
  | IInt _ => "int"
  | IString _ => "string"
  | IFloat64 _ => "float64"
  | ISlice _ => "[]int"
  end.

Definition plainValue (arg : iface) : string :=
  match arg with
  | INil => "<nil>"
  | IBool b => if b then "true" else "false"
  | IInt n => decimal n
  | IString s => s
  | IFloat64 _ | ISlice _ => "?"
  end.

(** The text for a verb that does not fit the operand: the type and the
    operand under the verb [v], where an integer keeps the sign that the
    plus flag asks for. *)
Definition badVerb (plus : bool) (verb : ascii) (arg : iface) : string :=
  match arg with
  | INil => "%!" ++ String verb "(<nil>)"
  | IInt n =>
      "%!" ++ String verb "(" ++ typeName arg ++ "="
           ++ (if plus && (0 <=? n)%Z then "+" else EmptyString) ++ decimal n ++ ")"
  | _ => "%!" ++ String verb "(" ++ typeName arg ++ "=" ++ plainValue arg ++ ")"
  end.

Definition printArg (plus sharp : bool) (verb : ascii) (arg : iface) : string :=
  if Ascii.eqb verb "v" then
    match arg with
    | IString s => if sharp then quote ++ s ++ quote else s
    | _ => plainValue arg
    end
  else
    match arg with
    | IInt n =>
        if Ascii.eqb verb "d"
        then (if plus && (0 <=? n)%Z then "+" else EmptyString) ++ decimal n
        else badVerb plus verb arg
    | IString s => if Ascii.eqb verb "s" then s else badVerb plus verb arg
    | IBool _ => if Ascii.eqb verb "t" then plainValue arg else badVerb plus verb arg
    | _ => badVerb plus verb arg
    end.

(** [directive] is [None] in literal text and holds the flags read so far
    after a [%]. *)
Fixpoint scan (directive : option (bool * bool)) (format : string)
    (args : list iface) : string :=
  match format with
  | EmptyString =>
      match directive with
      | None => EmptyString
      | Some _ => "%!(NOVERB)"
      end
  | String ch rest =>
      match directive with
      | None =>
          if Ascii.eqb ch "%" then scan (Some (false, false)) rest args
          else String ch (scan None rest args)
      | Some (plus, sharp) =>
          if Ascii.eqb ch "+" then scan (Some (true, sharp)) rest args
          else if Ascii.eqb ch "#" then scan (Some (plus, true)) rest args
          else if Ascii.eqb ch "%" then String ch (scan None rest args)
          else
            match args with
            | arg :: args' => printArg plus sharp ch arg ++ scan None rest args'
            | [] => "%!" ++ String ch "(MISSING)" ++ scan None rest []
            end
      end
  end.

#[export] Instance simple : Printer := {| Sprintf := scan None |}.

End SimplePrinter.

(** ** Examples from the tests *)

Module Examples.
Import SimplePrinter.
Local Open Scope string_scope.

(** [errors.New(msg)] of the standard library: a message and nothing else. *)
Definition New (msg : string) : error :=
  opaque {| f_Error := msg; f_Get := None; f_Stacktrace := None; f_Format := None |}.

(** A wrapper that has a cause and no properties, like the result of
    [errors.Wrap] for the lookup. *)
Definition Wrap (cause : error) (msg : string) : error :=
  wrapping {| f_Error := msg; f_Get := None; f_Stacktrace := None; f_Format := None |} cause.

(** An error that formats itself, like those of github.com/pkg/errors: the
    message, and a stack trace after it under the plus flag. *)
Definition NewWithStack (msg : string) : error :=
  opaque {| f_Error := msg; f_Get := None; f_Stacktrace := Some (Some [4096]);
            f_Format := Some (fun f _ =>
              if Flag f flag_plus then msg ++ " (stack)" else msg) |}.

(** A state with the two detail flags as given and no other. *)
Definition flags (plus sharp : bool) : State :=
  {| Flag := fun c =>
       if (c =? flag_plus)%Z then plus else if (c =? flag_sharp)%Z then sharp else false;
     Width := None; Precision := None |}.

Definition rootCause : error :=
  prop (WithValue (From (New "root cause")) (IString "key") (IString "rootValue")).

Definition wrapped : error :=
  prop (WithValue (From (Wrap rootCause "wrapped")) (IString "key") (IString "wrappedValue")).

End Examples.

(** ** The tests of the package *)

Module Tests.
Import SimplePrinter Examples.
Local Open Scope string_scope.

Example overriding_inner : GetOptional rootCause (IString "key") = Ok (IString "rootValue").
Proof. reflexivity. Qed.

Example overriding_outer : GetOptional wrapped (IString "key") = Ok (IString "wrappedValue").
Proof. reflexivity. Qed.

Example intermediate_cause_has_prop :
  let middle := prop (WithValue (From (Wrap (New "root cause") EmptyString))
                        (IString "foo") (IString "bar")) in
  let err := From (Wrap middle EmptyString) in
  PropError_Get err (IString "foo") = notFound /\
  Get (prop err) (IString "foo") = Ok (IString "bar", true).
Proof. split; reflexivity. Qed.

Example format_with_props :
  PropError_Format
    (WithValue (WithValue (From (New "cause")) (IInt 1) (IInt 2))
       (IString "key") (IString "value"))
    plainState verb_v = "[key=value,1=2] cause".
Proof. reflexivity. Qed.

Example format_sharp :
  PropError_Format
    (WithValue (WithValue (From (New "EOF")) (IString "filename") (IString "/tmp/stuff"))
       (IString "n") (IInt 7))
    (flags false true) verb_v
  = "[" ++ quote ++ "n" ++ quote ++ "=7," ++ quote ++ "filename" ++ quote ++ "="
        ++ quote ++ "/tmp/stuff" ++ quote ++ "] EOF".
Proof. reflexivity. Qed.

End Tests.

(** ** The lookup algorithm *)

Lemma returns_Ok {A : Type} (a : A) : returns (Ok a).
Proof. exists a. reflexivity. Qed.

#[local] Hint Resolve returns_Ok : core.

(** The equation of [Get], in the order of the source. *)
Lemma Get_step (err : error) (key : iface) :
  Get err key =
  if is_nil err then notFound
  else match ownValue err key with
       | Panic p => Panic p
       | Ok (Some val) => Ok (val, true)
       | Ok None =>
           match hasCause err with
           | Some cause => Get cause key
           | None => notFound
           end
       end.
Proof.
  funelim (Get err key);
    repeat match goal with
           | H : is_nil _ = _ |- _ => rewrite H
           | H : ownValue _ _ = _ |- _ => rewrite H
           | H : hasCause _ = _ |- _ => rewrite H
           end;
    reflexivity.
Qed.

(** [Get] on a decorated error: its own chain first, then its cause. *)
Lemma Get_prop (p : PropError) (key : iface) :
  Get (prop p) key =
  bind (PropError_Get p key) (fun r =>
    if snd r then Ok (fst r, true) else Get (PropError_Cause p) key).
Proof.
  rewrite Get_step. unfold ownValue. simpl.
  destruct (PropError_Get p key) as [[val [|]]|]; reflexivity.
Qed.

(** C1. The free function [Get] follows the four steps of the lookup
    algorithm: a nil error is not found; a value found by the error's own
    [Get] is returned with [true]; otherwise, an error that has a cause
    gives the result of [Get] on that cause; otherwise the key is not
    found. *)
Theorem Get_follows_steps (err : error) (key : iface) :
  (err = nil_error -> Get err key = Ok (INil, false)) /\
  (forall get val,
     err <> nil_error -> hasProps err = Some get -> get key = Ok (val, true) ->
     Get err key = Ok (val, true)) /\
  (forall cause,
     err <> nil_error -> ownMiss err key -> hasCause err = Some cause ->
     Get err key = Get cause key) /\
  (err <> nil_error -> ownMiss err key -> hasCause err = None ->
   Get err key = Ok (INil, false)).
Proof.
  assert (Hnil : err <> nil_error -> is_nil err = false)
    by (destruct err; [congruence | reflexivity ..]).
  assert (Hmiss : ownMiss err key -> ownValue err key = Ok None).
  { unfold ownValue. intros [-> | (get & val & -> & ->)]; reflexivity. }
  repeat split.
  - intros ->. rewrite Get_step. reflexivity.
  - intros get val Hne Hget Hval. rewrite Get_step, (Hnil Hne).
    unfold ownValue. rewrite Hget, Hval. reflexivity.
  - intros cause Hne Hown Hcause.
    rewrite Get_step, (Hnil Hne), (Hmiss Hown), Hcause. reflexivity.
  - intros Hne Hown Hcause.
    rewrite Get_step, (Hnil Hne), (Hmiss Hown), Hcause. reflexivity.
Qed.

Lemma Get_follows_steps_witness :
  Get nil_error (IString "id") = Ok (INil, false) /\
  Get Examples.rootCause (IString "key") = Ok (IString "rootValue", true) /\
  Get (Examples.Wrap Examples.rootCause "wrapped") (IString "key")
    = Get Examples.rootCause (IString "key") /\
  Get (Examples.New "fail") (IString "key") = Ok (INil, false).
Proof.
  split; [| split; [| split]].
  - apply (proj1 (Get_follows_steps nil_error (IString "id"))). reflexivity.
  - apply (proj1 (proj2 (Get_follows_steps Examples.rootCause (IString "key")))
             (PropError_Get (WithValue (From (Examples.New "root cause"))
                               (IString "key") (IString "rootValue")))).
    + discriminate.
    + reflexivity.
    + reflexivity.
  - apply (proj1 (proj2 (proj2
             (Get_follows_steps (Examples.Wrap Examples.rootCause "wrapped")
                (IString "key"))))).
    + discriminate.
    + left. reflexivity.
    + reflexivity.
  - apply (proj2 (proj2 (proj2
             (Get_follows_steps (Examples.New "fail") (IString "key"))))).
    + discriminate.
    + left. reflexivity.
    + reflexivity.
Defined.

(** ** Decoration chains *)

Lemma pairs_decorate (kvs : list (iface * iface)) :
  forall p, pairs (decorate p kvs) = rev kvs ++ pairs p.
Proof.
  induction kvs as [| [k v] kvs IH]; intros p; simpl.
  - reflexivity.
  - unfold decorate in *. simpl. rewrite IH. simpl.
    rewrite <- app_assoc. reflexivity.
Qed.

Lemma wrapped_error_decorate (kvs : list (iface * iface)) :
  forall p, wrapped_error (decorate p kvs) = wrapped_error p.
Proof.
  induction kvs as [| [k v] kvs IH]; intros p; [reflexivity |].
  unfold decorate in *. simpl. rewrite IH. reflexivity.
Qed.

Lemma PropError_Error_wrapped (p : PropError) :
  PropError_Error p = error_Error (wrapped_error p).
Proof. induction p; simpl; auto. Qed.

Lemma PropError_Cause_wrapped (p : PropError) :
  PropError_Cause p = PropError_Cause (baseError (wrapped_error p)).
Proof. induction p; simpl; auto. Qed.

(** The method [Get] of a decorated error walks its own pairs, newest
    first, and ends at the wrapped error's own [Get]. *)
Lemma PropError_Get_chain (p : PropError) (key : iface) :
  PropError_Get p key =
  firstMatch key (pairs p) (wrappedGet (wrapped_error p) key).
Proof.
  induction p as [err | prev IH k v]; simpl.
  - reflexivity.
  - rewrite IH. reflexivity.
Qed.

Lemma firstMatch_skip (key : iface) (kvs rest : list (iface * iface))
    (miss : result (iface * bool)) :
  Forall (fun kv => iface_eq key (fst kv) = Ok false) kvs ->
  firstMatch key (kvs ++ rest) miss = firstMatch key rest miss.
Proof.
  induction 1 as [| [k v] kvs Hk _ IH]; simpl in *.
  - reflexivity.
  - rewrite Hk. simpl. exact IH.
Qed.

(** C6. A decorated error has the message of the error it was made from:
    [Error()] of [From(e)] followed by any calls of [WithValue] is
    [Error()] of [e], whatever the pairs are. *)
Theorem Error_message_preserved (e : error) (kvs : list (iface * iface)) :
  PropError_Error (From e) = error_Error e /\
  PropError_Error (decorate (From e) kvs) = error_Error e /\
  error_Error (prop (decorate (From e) kvs)) = error_Error e /\
  (forall kvs', PropError_Error (decorate (From e) kvs')
                = PropError_Error (decorate (From e) kvs)).
Proof.
  assert (H : forall l, PropError_Error (decorate (From e) l) = error_Error e).
  { intros l. rewrite PropError_Error_wrapped, wrapped_error_decorate. reflexivity. }
  repeat split.
  - apply H.
  - simpl. apply H.
  - intros kvs'. rewrite !H. reflexivity.
Qed.

(** C10. [From] takes a nil error: none of the capability assertions on nil
    holds, the cause of [From(nil)] is nil, and [Get] on it finds nothing,
    for every key. *)
Theorem Get_From_nil (printer : Printer) (k : iface) :
  hasProps nil_error = None /\
  hasCause nil_error = None /\
  hasStacktrace nil_error = None /\
  hasFormatter nil_error = None /\
  PropError_Get (From nil_error) k = Ok (INil, false) /\
  PropError_Cause (From nil_error) = nil_error /\
  Get (prop (From nil_error)) k = Ok (INil, false).
Proof.
  split; [reflexivity |]. split; [reflexivity |]. split; [reflexivity |].
  split; [reflexivity |]. split; [reflexivity |]. split; [reflexivity |].
  rewrite Get_prop. simpl. rewrite Get_step. reflexivity.
Qed.

(** ** Round trip and shadowing *)

(** The newest pair of a chain answers for its key. *)
Lemma Get_newest_pair (y : PropError) (k v : iface) :
  iface_eq k k = Ok true ->
  Get (prop (WithValue y k v)) k = Ok (v, true).
Proof.
  intros Hk. rewrite Get_prop. simpl. rewrite Hk. reflexivity.
Qed.

(** C4, as amended. For every decorated error [y], every value [v] and
    every key [k] that [==] finds equal to itself, [Get] on
    [y.WithValue(k, v)] yields [(v, true)], whatever [y] holds. *)
Theorem WithValue_then_Get (y : PropError) (k v : iface) :
  iface_eq k k = Ok true ->
  Get (prop (WithValue y k v)) k = Ok (v, true).
Proof. apply Get_newest_pair. Qed.

Lemma WithValue_then_Get_witness :
  Get (prop (WithValue (From (Examples.New "root")) (IString "id") (IInt 42)))
      (IString "id") = Ok (IInt 42, true).
Proof.
  apply (WithValue_then_Get (From (Examples.New "root")) (IString "id") (IInt 42)).
  reflexivity.
Defined.

(** C4, as stated, fails for a key of an uncomparable type, where the
    lookup panics, and for a NaN key, which is never found. *)
Lemma WithValue_then_Get_fails :
  Get (prop (WithValue (From (Examples.New "root")) (ISlice [1]) (IInt 42)))
      (ISlice [1]) <> Ok (IInt 42, true) /\
  Get (prop (WithValue (From (Examples.New "root")) (ISlice [1]) (IInt 42)))
      (ISlice [1]) = Panic UncomparableType /\
  Get (prop (WithValue (From (Examples.New "root")) (IFloat64 S754_nan) (IInt 42)))
      (IFloat64 S754_nan) = Ok (INil, false).
Proof.
  split; [| split].
  - vm_compute. discriminate.
  - reflexivity.
  - reflexivity.
Qed.

(** A pair set on a chain is found under every later pair with another
    key. *)
Lemma Get_under_later_pairs (p : PropError) (k v : iface)
    (later : list (iface * iface)) :
  iface_eq k k = Ok true ->
  Forall (fun kv => iface_eq k (fst kv) = Ok false) later ->
  Get (prop (decorate (WithValue p k v) later)) k = Ok (v, true).
Proof.
  intros Hk Hlater.
  rewrite Get_prop, PropError_Get_chain, pairs_decorate.
  rewrite firstMatch_skip by (apply List.Forall_rev; exact Hlater).
  simpl. rewrite Hk. reflexivity.
Qed.

(** C2, as amended. For a key [k] that [==] finds equal to itself: setting
    [k] again keeps both pairs in the chain, and [Get] returns the newer
    value, also under later pairs with other keys; an inner error queried
    directly gives its own value [v1], and a chain around it that sets [k]
    to [v2] gives [v2], while without that pair the lookup reaches [v1]
    through the cause. *)
Theorem newer_pair_shadows (k v1 v2 : iface) :
  iface_eq k k = Ok true ->
  (forall p,
     pairs (WithValue (WithValue p k v1) k v2) = (k, v2) :: (k, v1) :: pairs p) /\
  (forall p,
     Get (prop (WithValue p k v1)) k = Ok (v1, true) /\
     Get (prop (WithValue (WithValue p k v1) k v2)) k = Ok (v2, true)) /\
  (forall p between later,
     Forall (fun kv => iface_eq k (fst kv) = Ok false) later ->
     Get (prop (decorate (WithValue (decorate (WithValue p k v1) between) k v2) later)) k
       = Ok (v2, true)) /\
  (forall q x later,
     let inner := prop (WithValue q k v1) in
     f_Get x = None ->
     Forall (fun kv => iface_eq k (fst kv) = Ok false) later ->
     Get inner k = Ok (v1, true) /\
     Get (prop (decorate (From (wrapping x inner)) later)) k = Ok (v1, true) /\
     Get (prop (decorate (WithValue (From (wrapping x inner)) k v2) later)) k
       = Ok (v2, true)).
Proof.
  intros Hk. split; [| split; [| split]].
  - reflexivity.
  - intros p. split; apply Get_newest_pair; exact Hk.
  - intros p between later Hlater. apply Get_under_later_pairs; assumption.
  - intros q x later inner Hx Hlater. split; [| split].
    + apply Get_newest_pair; exact Hk.
    + rewrite Get_prop, PropError_Get_chain, pairs_decorate, wrapped_error_decorate.
      rewrite firstMatch_skip by (apply List.Forall_rev; exact Hlater).
      simpl. unfold wrappedGet. simpl. rewrite Hx. simpl.
      rewrite PropError_Cause_wrapped, wrapped_error_decorate. simpl.
      apply Get_newest_pair; exact Hk.
    + apply Get_under_later_pairs; assumption.
Qed.

Lemma newer_pair_shadows_witness :
  Get Examples.rootCause (IString "key") = Ok (IString "rootValue", true) /\
  Get Examples.wrapped (IString "key") = Ok (IString "wrappedValue", true).
Proof.
  pose proof (newer_pair_shadows (IString "key") (IString "rootValue")
                (IString "wrappedValue") eq_refl) as (_ & _ & _ & H).
  destruct (H (From (Examples.New "root cause"))
              {| f_Error := "wrapped"; f_Get := None;
                 f_Stacktrace := None; f_Format := None |}
              [] eq_refl (List.Forall_nil _)) as (Hinner & _ & Houter).
  split; [exact Hinner | exact Houter].
Defined.

(** C2, as stated, fails for a key of an uncomparable type: after two calls
    of [WithValue] with the key, [Get] panics instead of returning the newer
    value. *)
Lemma newer_pair_shadows_fails :
  Get (prop (WithValue (WithValue (From (Examples.New "root")) (ISlice [1]) (IInt 1))
               (ISlice [1]) (IInt 2))) (ISlice [1]) <> Ok (IInt 2, true) /\
  Get (prop (WithValue (WithValue (From (Examples.New "root")) (ISlice [1]) (IInt 1))
               (ISlice [1]) (IInt 2))) (ISlice [1]) = Panic UncomparableType.
Proof.
  split.
  - vm_compute. discriminate.
  - reflexivity.
Qed.

(** ** The method [Get] of a node *)

(** C3, as amended. The method [Get] of a node never consults the cause:
    a key/value node answers with its own pair when the key matches and
    with its predecessor's [Get] otherwise, so that a chain answers with its
    newest matching pair; a Base answers with the wrapped error's own [Get]
    when that error has properties, and with [(nil, false)] when it has
    none. *)
Theorem node_Get_walks_own_chain (p : PropError) (key : iface) :
  PropError_Get p key
    = firstMatch key (pairs p) (wrappedGet (wrapped_error p) key) /\
  (forall err, hasProps err = None ->
     PropError_Get (From err) key = Ok (INil, false)) /\
  (forall err get, hasProps err = Some get ->
     PropError_Get (From err) key = get key) /\
  (forall x cause cause' kvs,
     PropError_Get (decorate (From (wrapping x cause)) kvs) key
       = PropError_Get (decorate (From (wrapping x cause')) kvs) key) /\
  (forall x cause kvs,
     PropError_Get (decorate (From (wrapping x cause)) kvs) key
       = PropError_Get (decorate (From (opaque x)) kvs) key).
Proof.
  split; [apply PropError_Get_chain |].
  split; [intros err H; simpl; rewrite H; reflexivity |].
  split; [intros err get H; simpl; rewrite H; reflexivity |].
  split; intros; rewrite !PropError_Get_chain, !pairs_decorate,
                   !wrapped_error_decorate; reflexivity.
Qed.

Lemma node_Get_walks_own_chain_witness :
  PropError_Get (From (Examples.Wrap Examples.rootCause "wrapped")) (IString "key")
    = Ok (INil, false) /\
  PropError_Get (From Examples.rootCause) (IString "key")
    = Ok (IString "rootValue", true).
Proof.
  pose proof (node_Get_walks_own_chain (From nil_error) (IString "key"))
    as (_ & Hnone & Hsome & _).
  split.
  - apply (Hnone (Examples.Wrap Examples.rootCause "wrapped")). reflexivity.
  - apply (Hsome Examples.rootCause
             (PropError_Get (WithValue (From (Examples.New "root cause"))
                               (IString "key") (IString "rootValue")))).
    reflexivity.
Defined.

(** C3, as stated, fails: a node asked for a key that is not its own
    returns its predecessor's pair, and a Base around an error that has
    properties finds that error's value. *)
Lemma node_Get_consults_predecessor :
  PropError_Get
    (WithValue (WithValue (From (Examples.New "root")) (IString "a") (IInt 1))
       (IString "b") (IInt 2))
    (IString "a") = Ok (IInt 1, true) /\
  PropError_Get
    (From (prop (WithValue (From (Examples.New "root")) (IString "a") (IInt 1))))
    (IString "a") = Ok (IInt 1, true) /\
  PropError_Get
    (From (prop (WithValue (From (Examples.New "root")) (IString "a") (IInt 1))))
    (IString "a") <> Ok (INil, false).
Proof.
  split; [reflexivity |]. split; [reflexivity |]. vm_compute. discriminate.
Qed.

(** ** Panics *)

Lemma append_empty_r (s : string) : (s ++ EmptyString)%string = s.
Proof. induction s as [| ch s IH]; simpl; [| rewrite IH]; reflexivity. Qed.

Lemma keysCompare_cause (key : iface) :
  (forall err cause,
     hasCause err = Some cause -> keysCompare key err -> keysCompare key cause) /\
  (forall p, PropError_keysCompare key p -> keysCompare key (PropError_Cause p)).
Proof.
  apply error_PropError_ind; simpl.
  - discriminate.
  - discriminate.
  - intros x cause _ c [= <-] H. exact H.
  - intros p IH c [= <-] H. apply IH. exact H.
  - intros err IH H. destruct (hasCause err) as [c |] eqn:E.
    + apply (IH c eq_refl H).
    + exact I.
  - intros prev IH _ _ [_ H]. apply IH. exact H.
Qed.

Lemma keysCompare_always (key : iface) :
  (forall k, returns (iface_eq key k)) ->
  (forall err, keysCompare key err) /\ (forall p, PropError_keysCompare key p).
Proof.
  intros Hkey. apply error_PropError_ind; simpl; auto.
Qed.

Lemma node_Get_returns (key : iface) :
  (forall err, keysCompare key err ->
     forall get, hasProps err = Some get -> returns (get key)) /\
  (forall p, PropError_keysCompare key p -> returns (PropError_Get p key)).
Proof.
  apply error_PropError_ind; simpl.
  - discriminate.
  - intros x _ get. destruct (f_Get x); simpl; intros [= <-]. auto.
  - intros x cause _ _ get. destruct (f_Get x); simpl; intros [= <-]. auto.
  - intros p IH H get [= <-]. apply IH. exact H.
  - intros err IH H. destruct (hasProps err) as [get |] eqn:E.
    + apply (IH H get eq_refl).
    + unfold notFound. auto.
  - intros prev IH k v [[[|] ->] H]; simpl; auto.
Qed.

Lemma ownValue_returns (err : error) (key : iface) :
  keysCompare key err -> returns (ownValue err key).
Proof.
  intros Hkey. unfold ownValue.
  destruct (hasProps err) as [get |] eqn:E; [| auto].
  destruct (proj1 (node_Get_returns key) err Hkey get E) as [[val [|]] ->];
    simpl; auto.
Qed.

Lemma Get_returns (err : error) (key : iface) :
  keysCompare key err -> returns (Get err key).
Proof.
  funelim (Get err key); intros Hkey; try (unfold notFound; auto; fail).
  - match goal with
    | H : ownValue ?e ?k = Panic _ |- _ =>
        destruct (ownValue_returns e k Hkey) as [? Hr]; congruence
    end.
  - match goal with
    | IH : keysCompare _ _ -> returns _ |- _ => apply IH
    end.
    eapply (proj1 (keysCompare_cause key)); eassumption.
Qed.

Lemma Raw_WithValue_of (q : PropError) (key value : iface) :
  Raw.WithValue (Raw.embed q) key value = Ok (Raw.embed (WithValue q key value)).
Proof. destruct q; reflexivity. Qed.

Lemma Raw_built_of (r : Raw.rawProp) :
  Raw.built r <-> exists q, r = Raw.embed q.
Proof.
  split.
  - induction 1 as [err p H | p q key value _ [q' ->] H].
    + injection H as <-. exists (baseError err). reflexivity.
    + rewrite Raw_WithValue_of in H. injection H as <-.
      exists (WithValue q' key value). reflexivity.
  - intros [q ->]. induction q as [err | prev IH key value]; simpl.
    + apply (Raw.built_From err). reflexivity.
    + apply (Raw.built_WithValue (Raw.embed prev) _ key value IH).
      apply Raw_WithValue_of.
Qed.

Lemma Raw_methods_of (q : PropError) (key : iface) :
  Raw.Error (Raw.embed q) = PropError_Error q /\
  Raw.Cause (Raw.embed q) = Ok (PropError_Cause q) /\
  Raw.Stacktrace (Raw.embed q) = Ok (PropError_Stacktrace q) /\
  Raw.Get (Raw.embed q) key = PropError_Get q key.
Proof.
  induction q as [err | prev (HE & HC & HS & HG) k v]; simpl.
  - repeat split.
  - rewrite HE, HC, HS, HG. repeat split.
Qed.

Lemma Raw_Format_of (printer : Printer) (q : PropError) (f : State) (c : rune) :
  Raw.Format (Raw.embed q) f c = Ok (PropError_Format q f c).
Proof.
  assert (Hbase : forall p, Raw.formatBaseError (Raw.embed p) f c
                            = Ok (PropError_formatBaseError p f c)).
  { induction p as [err | prev IH k v]; simpl; [reflexivity | exact IH]. }
  assert (Hinner : forall prev k v, Raw.formatInner (Raw.embed prev) k v f c
                                    = Ok (formatInner prev k v f c)).
  { induction prev as [err | prev IH k' v']; intros k v; simpl.
    - rewrite append_empty_r. reflexivity.
    - rewrite IH. reflexivity. }
  destruct q as [err | prev k v].
  - reflexivity.
  - simpl. rewrite Hinner, (Hbase prev). reflexivity.
Qed.

(** A node whose predecessor is nil is no value the package builds, and
    its promoted methods panic. *)
Lemma Raw_nil_predecessor_panics (printer : Printer) (key value : iface)
    (f : State) (c : rune) :
  let broken := Raw.raw_kv Raw.raw_nil key value in
  ~ Raw.built broken /\
  Raw.Cause broken = Panic NilDereference /\
  Raw.Stacktrace broken = Panic NilDereference /\
  Raw.Format broken f c = Panic NilDereference /\
  Raw.WithValue Raw.raw_nil key value = Panic NilDereference.
Proof.
  intros broken. split; [| repeat split].
  intros H. apply Raw_built_of in H. destruct H as [[err | prev k v] H];
    [discriminate |].
  injection H as H _ _. destruct prev; discriminate.
Qed.

(** C9, as amended. [Get], [GetOptional] and the method [Get] return for
    every error and every key that [==] compares without panic with each
    key the error holds, so for every key that [==] compares with anything;
    [Error()] returns on every decorated error made from an error whose own
    [Error()] returns, as that of every error from outside the package does;
    [From] returns for every error; and on every value built by [From] and
    [WithValue], where a nil predecessor would make them panic, [WithValue],
    [Cause], [Stacktrace] and [Format] return what they return on the
    decorated error it stands for. *)
Theorem operations_do_not_panic (printer : Printer) (err : error) (key : iface) :
  keysCompare key err ->
  returns (Get err key) /\
  returns (GetOptional err key) /\
  (forall p, PropError_keysCompare key p -> returns (PropError_Get p key)) /\
  ((forall k, returns (iface_eq key k)) ->
   forall e p, returns (Get e key) /\ returns (GetOptional e key) /\
               returns (PropError_Get p key)) /\
  (forall e kvs,
     returns (error_Error e) ->
     returns (PropError_Error (decorate (From e) kvs))) /\
  (forall x, returns (error_Error (opaque x))) /\
  (forall x cause, returns (error_Error (wrapping x cause))) /\
  (forall e, returns (Raw.From e) /\ exists r, Raw.From e = Ok r /\ Raw.built r) /\
  (forall r, Raw.built r ->
     exists q, r = Raw.embed q /\
       forall k v f c,
         Raw.WithValue r k v = Ok (Raw.embed (WithValue q k v)) /\
         Raw.built (Raw.embed (WithValue q k v)) /\
         Raw.Cause r = Ok (PropError_Cause q) /\
         Raw.Stacktrace r = Ok (PropError_Stacktrace q) /\
         Raw.Format r f c = Ok (PropError_Format q f c) /\
         Raw.Error r = PropError_Error q /\
         Raw.Get r k = PropError_Get q k).
Proof.
  assert (HOpt : forall e, returns (Get e key) -> returns (GetOptional e key)).
  { intros e [[val [|]] H]; unfold GetOptional; rewrite H; simpl; auto. }
  intros Hkey. split; [| split; [| split; [| split; [| split; [| split; [| split; [| split]]]]]]].
  - apply Get_returns; exact Hkey.
  - apply HOpt, Get_returns; exact Hkey.
  - apply (proj2 (node_Get_returns key)).
  - intros Hall e p. destruct (keysCompare_always key Hall) as [He Hp].
    split; [apply Get_returns, He |].
    split; [apply HOpt, Get_returns, He |].
    apply (proj2 (node_Get_returns key)), Hp.
  - intros e kvs He. rewrite PropError_Error_wrapped, wrapped_error_decorate.
    exact He.
  - intros x. simpl. auto.
  - intros x cause. simpl. auto.
  - intros e. split; [unfold Raw.From; auto |].
    exists (Raw.raw_base e). split; [reflexivity |].
    apply (Raw.built_From e). reflexivity.
  - intros r Hr. destruct (proj1 (Raw_built_of r) Hr) as [q ->].
    exists q. split; [reflexivity |]. intros k v f c.
    destruct (Raw_methods_of q k) as (HE & HC & HS & HG).
    split; [apply Raw_WithValue_of |].
    split; [apply Raw_built_of; eexists; reflexivity |].
    split; [exact HC |]. split; [exact HS |].
    split; [apply Raw_Format_of |]. split; [exact HE | exact HG].
Qed.

Lemma operations_do_not_panic_witness :
  returns (Get Examples.wrapped (IString "missing")) /\
  returns (GetOptional Examples.wrapped (IString "missing")).
Proof.
  assert (H : keysCompare (IString "missing") Examples.wrapped).
  { simpl. repeat split; eexists; reflexivity. }
  pose proof (operations_do_not_panic SimplePrinter.simple
                Examples.wrapped (IString "missing") H) as (HGet & HOpt & _).
  split; [exact HGet | exact HOpt].
Defined.

(** C9, as stated, fails: [Get] and [GetOptional] panic on a key of an
    uncomparable type that the chain holds, and [Error()] panics on a
    decorated nil error. *)
Lemma operations_can_panic :
  Get (prop (WithValue (From (Examples.New "fail")) (ISlice [1]) (IInt 7)))
      (ISlice [1]) = Panic UncomparableType /\
  GetOptional (prop (WithValue (From (Examples.New "fail")) (ISlice [1]) (IInt 7)))
      (ISlice [1]) = Panic UncomparableType /\
  PropError_Error (WithValue (From nil_error) (IString "id") (IInt 42))
    = Panic NilDereference /\
  ~ returns (Get (prop (WithValue (From (Examples.New "fail")) (ISlice [1]) (IInt 7)))
               (ISlice [1])).
Proof.
  split; [reflexivity |]. split; [reflexivity |]. split; [reflexivity |].
  intros [r Hr]. vm_compute in Hr. discriminate.
Qed.

(** ** Formatting *)

Section FormattingFacts.
Context {printer : Printer}.
Local Open Scope string_scope.

(** [formatInner] writes the pairs of the chain, newest first, with a comma
    before each ancestor's pair. *)
Lemma formatInner_pairs (f : State) (c : rune) (prev : PropError) :
  forall key value,
    formatInner prev key value f c
      = join "," (map (pairText f c) ((key, value) :: pairs prev)).
Proof.
  induction prev as [err | prev IH k v]; intros key value; simpl.
  - apply append_empty_r.
  - rewrite IH. reflexivity.
Qed.

Lemma formatBaseError_wrapped (f : State) (c : rune) (p : PropError) :
  PropError_formatBaseError p f c
    = PropError_formatBaseError (From (wrapped_error p)) f c.
Proof. induction p; simpl; auto. Qed.

(** The plain text of an error is what its formatter writes for the verb
    [v] without flags. *)
Lemma Fprint_formatter (err : error) (format : State -> rune -> string) :
  hasFormatter err = Some format -> format plainState verb_v = Fprint err.
Proof.
  destruct err as [| x | x cause | p]; simpl.
  - discriminate.
  - intros ->. reflexivity.
  - intros ->. reflexivity.
  - intros [= <-]. reflexivity.
Qed.

Lemma formatBaseError_plain (err : error) :
  PropError_formatBaseError (From err) plainState verb_v = Fprint err.
Proof.
  simpl. destruct (hasFormatter err) as [format |] eqn:E; [| reflexivity].
  apply Fprint_formatter. exact E.
Qed.

(** C7. [Format] of a decorated error with at least one pair writes one
    bracket section, holding its own pair and then each ancestor's pair
    after a comma, newest first up to the Base, then [] ] and a space, then
    what the Base writes for the wrapped error; and
    [From(cause).WithValue("a", 1).WithValue("b", 2)] is written plainly as
    [[b=2,a=1] ] followed by the plain text of [cause], given the text
    [fmt] writes for the two pairs. *)
Theorem Format_brackets_pairs (prev : PropError) (key value : iface)
    (f : State) (c : rune) :
  PropError_Format (keyValueError prev key value) f c
    = "[" ++ join "," (map (pairText f c) ((key, value) :: pairs prev))
          ++ "] " ++ PropError_formatBaseError (From (wrapped_error prev)) f c /\
  (forall cause,
     Sprintf "%v=%v" [IString "b"; IInt 2] = "b=2" ->
     Sprintf "%v=%v" [IString "a"; IInt 1] = "a=1" ->
     PropError_Format
       (WithValue (WithValue (From cause) (IString "a") (IInt 1))
          (IString "b") (IInt 2))
       plainState verb_v
     = "[b=2,a=1] " ++ Fprint cause).
Proof.
  split.
  - unfold PropError_Format, Format_body.
    rewrite formatInner_pairs.
    change (PropError_formatBaseError (keyValueError prev key value) f c)
      with (PropError_formatBaseError prev f c).
    rewrite (formatBaseError_wrapped f c prev). reflexivity.
  - intros cause Hb Ha.
    unfold PropError_Format, Format_body, WithValue.
    rewrite formatInner_pairs.
    change (PropError_formatBaseError
              (keyValueError (keyValueError (From cause) (IString "a") (IInt 1))
                 (IString "b") (IInt 2)) plainState verb_v)
      with (PropError_formatBaseError (From cause) plainState verb_v).
    rewrite formatBaseError_plain.
    simpl pairs. simpl map. unfold pairText. simpl fst. simpl snd.
    change (verbFormat plainState verb_v) with "%v".
    change ("%v" ++ "=" ++ "%v") with "%v=%v".
    simpl join. rewrite Hb, Ha. reflexivity.
Qed.

(** C8, as amended. The state and the verb that [Format] receives reach the
    wrapped error's formatter unchanged, through any number of pairs; every
    pair of the chain is written under one and the same directive, which
    carries [+] when the plus flag is set and [#] when only the sharp flag
    is set: it carries the flags of the state unless both are set. *)
Theorem flags_reach_pairs_and_wrapped_error (f : State) (c : rune) :
  (forall err format kvs,
     hasFormatter err = Some format ->
     PropError_formatBaseError (decorate (From err) kvs) f c = format f c) /\
  (forall err format prev key value,
     wrapped_error prev = err -> hasFormatter err = Some format ->
     PropError_Format (keyValueError prev key value) f c
       = "[" ++ join "," (map (pairText f c) ((key, value) :: pairs prev))
             ++ "] " ++ format f c) /\
  (forall err kvs,
     hasFormatter err = None ->
     PropError_formatBaseError (decorate (From err) kvs) f c = Fprint err) /\
  (Flag f flag_plus && Flag f flag_sharp = false ->
     verbFormat f c = uniformFormat f c) /\
  (Flag f flag_plus = true -> verbFormat f c = "%+" ++ encodeRune c).
Proof.
  split; [| split; [| split; [| split]]].
  - intros err format kvs H.
    rewrite formatBaseError_wrapped, wrapped_error_decorate. simpl.
    rewrite H. reflexivity.
  - intros err format prev key value Hw H.
    unfold PropError_Format, Format_body. rewrite formatInner_pairs.
    change (PropError_formatBaseError (keyValueError prev key value) f c)
      with (PropError_formatBaseError prev f c).
    rewrite (formatBaseError_wrapped f c prev), Hw. simpl.
    rewrite H. reflexivity.
  - intros err kvs H.
    rewrite formatBaseError_wrapped, wrapped_error_decorate. simpl.
    rewrite H. reflexivity.
  - unfold verbFormat, uniformFormat.
    destruct (Flag f flag_plus), (Flag f flag_sharp); simpl;
      try discriminate; reflexivity.
  - unfold verbFormat. intros ->. reflexivity.
Qed.

End FormattingFacts.

Import SimplePrinter.

Lemma Format_brackets_pairs_witness :
  PropError_Format
    (WithValue (WithValue (From (Examples.New "cause")) (IString "a") (IInt 1))
       (IString "b") (IInt 2))
    plainState verb_v = "[b=2,a=1] cause"%string.
Proof.
  apply (proj2 (@Format_brackets_pairs SimplePrinter.simple
                  (From nil_error) INil INil plainState verb_v)
           (Examples.New "cause")).
  - reflexivity.
  - reflexivity.
Defined.

Lemma flags_reach_pairs_and_wrapped_error_witness :
  PropError_formatBaseError
    (decorate (From (Examples.NewWithStack "fail")) [(IString "id", IInt 42)])
    (Examples.flags true false) verb_v = "fail (stack)"%string /\
  verbFormat (Examples.flags false true) verb_v
    = uniformFormat (Examples.flags false true) verb_v.
Proof.
  split.
  - apply (proj1 (@flags_reach_pairs_and_wrapped_error SimplePrinter.simple
                    (Examples.flags true false) verb_v)
             (Examples.NewWithStack "fail")
             (fun f _ => if Flag f flag_plus then "fail (stack)" else "fail")%string).
    reflexivity.
  - apply (proj1 (proj2 (proj2 (proj2
             (@flags_reach_pairs_and_wrapped_error SimplePrinter.simple
                (Examples.flags false true) verb_v))))).
    reflexivity.
Defined.

(** C8, as stated, fails when both flags are set: the pairs are written
    under the plus flag alone, while the wrapped error receives both. *)
Lemma both_flags_not_threaded :
  let f := Examples.flags true true in
  Flag f flag_plus = true /\ Flag f flag_sharp = true /\
  verbFormat f verb_v = "%+v"%string /\
  uniformFormat f verb_v = "%+#v"%string /\
  verbFormat f verb_v <> uniformFormat f verb_v /\
  formatInner (From (Examples.New "fail")) (IString "b") (IInt 2) f verb_v
    = "b=2"%string /\
  formatInner (From (Examples.New "fail")) (IString "b") (IInt 2) f verb_v
    <> Sprintf (uniformFormat f verb_v ++ "=" ++ uniformFormat f verb_v)%string
         [IString "b"; IInt 2].
Proof.
  repeat (split; [reflexivity |]).
  split; [vm_compute; discriminate |].
  split; [reflexivity |].
  vm_compute. discriminate.
Qed.

(** ** Allocation *)

Lemma values_snoc (s : Store.store) (n : Store.node) :
  Store.values (s ++ [n]) = Store.values s ++ [Store.node_value (Store.values s) n].
Proof. unfold Store.values. rewrite fold_left_app. reflexivity. Qed.

Lemma values_length (s : Store.store) : length (Store.values s) = length s.
Proof.
  induction s as [| n s IH] using rev_ind.
  - reflexivity.
  - rewrite values_snoc, !length_app, IH. reflexivity.
Qed.

(** A reference that has a value keeps it when nodes are added. *)
Lemma reify_extend (den ext : list (option PropError)) :
  (forall err e, Store.reify_error den err = Some e ->
                 Store.reify_error (den ++ ext) err = Some e) /\
  (forall p q, Store.reify_href den p = Some q -> Store.reify_href (den ++ ext) p = Some q).
Proof.
  apply Store.herror_href_ind; cbn [Store.reify_error Store.reify_href].
  - auto.
  - auto.
  - intros x cause IH e H.
    destruct (Store.reify_error den cause) as [c |]; [| discriminate].
    rewrite (IH c eq_refl). exact H.
  - intros p IH e H.
    destruct (Store.reify_href den p) as [q |]; [| discriminate].
    rewrite (IH q eq_refl). exact H.
  - intros err IH q H.
    destruct (Store.reify_error den err) as [e |]; [| discriminate].
    rewrite (IH e eq_refl). exact H.
  - intros a q H.
    destruct (den !! a) as [o |] eqn:E; [| discriminate].
    rewrite (lookup_app_l_Some den ext a o E). exact H.
Qed.

Lemma read_kept (s : Store.store) (e : Store.href) (key value : iface) (p : Store.href)
    (q : PropError) :
  Store.read s p = Some q -> Store.read (snd (Store.WithValue s e key value)) p = Some q.
Proof.
  unfold Store.read. simpl. rewrite values_snoc.
  apply (proj2 (reify_extend (Store.values s) _)).
Qed.

Lemma read_error_kept (s : Store.store) (e : Store.href) (key value : iface) (err : Store.herror)
    (x : error) :
  Store.read_error s err = Some x ->
  Store.read_error (snd (Store.WithValue s e key value)) err = Some x.
Proof.
  unfold Store.read_error. simpl. rewrite values_snoc.
  apply (proj1 (reify_extend (Store.values s) _)).
Qed.

Lemma read_new (s : Store.store) (e : Store.href) (key value : iface) (q : PropError) :
  Store.read s e = Some q ->
  Store.read (snd (Store.WithValue s e key value)) (fst (Store.WithValue s e key value))
    = Some (keyValueError q key value).
Proof.
  unfold Store.read. intros H. simpl. rewrite values_snoc.
  rewrite lookup_app_r by (rewrite values_length; lia).
  rewrite values_length, Nat.sub_diag. simpl.
  unfold Store.node_value. simpl. rewrite H. reflexivity.
Qed.

Lemma nodes_kept (s : Store.store) (e : Store.href) (key value : iface) (i : Store.addr) (n : Store.node) :
  s !! i = Some n -> snd (Store.WithValue s e key value) !! i = Some n.
Proof. intros H. simpl. apply lookup_app_l_Some. exact H. Qed.

Lemma new_address_free (s : Store.store) (e : Store.href) (key value : iface) :
  exists a, fst (Store.WithValue s e key value) = Store.h_ptr a /\ s !! a = None.
Proof.
  exists (length s). split; [reflexivity |].
  apply lookup_ge_None. lia.
Qed.

Lemma Get_of_reference (s : Store.store) (p : Store.href) (q : PropError)
    (key : iface) :
  Store.read s p = Some q ->
  Store.Get s (Store.h_prop p) key = Some (Get (prop q) key).
Proof.
  unfold Store.Get, Store.read_error, Store.read.
  cbn [Store.reify_error]. intros ->. reflexivity.
Qed.

(** C5, as amended. [WithValue] allocates a Store.node at an address that was
    free and writes to no Store.node of the Store.store, so every reference keeps its
    value; after [a := From(e).WithValue(k, v1)] and
    [b := a.WithValue(k, v2)], [a] is still the chain with the single pair
    [k = v1], and for a key [k] that [==] finds equal to itself [Get] on [a]
    yields [v1] before and after [b] is made, and [v2] on [b]. *)
Theorem WithValue_keeps_receiver (s : Store.store) (e : Store.herror) (e0 : error)
    (k v1 v2 : iface) :
  Store.read_error s e = Some e0 ->
  let r1 := Store.WithValue s (Store.From e) k v1 in
  let a := fst r1 in
  let s1 := snd r1 in
  let r2 := Store.WithValue s1 a k v2 in
  let b := fst r2 in
  let s2 := snd r2 in
  (forall i n, s !! i = Some n -> s1 !! i = Some n) /\
  (forall i n, s1 !! i = Some n -> s2 !! i = Some n) /\
  (forall p q, Store.read s1 p = Some q -> Store.read s2 p = Some q) /\
  (forall err x, Store.read_error s1 err = Some x ->
                 Store.read_error s2 err = Some x) /\
  (exists i, b = Store.h_ptr i /\ s1 !! i = None) /\
  a <> b /\
  Store.read s1 a = Some (WithValue (From e0) k v1) /\
  Store.read s2 a = Some (WithValue (From e0) k v1) /\
  Store.read s2 b = Some (WithValue (WithValue (From e0) k v1) k v2) /\
  (iface_eq k k = Ok true ->
   Store.Get s1 (Store.h_prop a) k = Some (Ok (v1, true)) /\
   Store.Get s2 (Store.h_prop a) k = Some (Ok (v1, true)) /\
   Store.Get s2 (Store.h_prop b) k = Some (Ok (v2, true)) /\
   Store.node_Get s2 a k = Some (Ok (v1, true)) /\
   Store.node_Get s2 b k = Some (Ok (v2, true))).
Proof.
  intros He r1 a s1 r2 b s2.
  assert (Hbase : Store.read s (Store.From e) = Some (From e0)).
  { unfold Store.read, Store.read_error in *. simpl. rewrite He. reflexivity. }
  assert (Ha1 : Store.read s1 a = Some (WithValue (From e0) k v1))
    by (apply read_new; exact Hbase).
  assert (Ha2 : Store.read s2 a = Some (WithValue (From e0) k v1))
    by (apply read_kept; exact Ha1).
  assert (Hb2 : Store.read s2 b = Some (WithValue (WithValue (From e0) k v1) k v2))
    by (apply read_new; exact Ha1).
  split; [intros i n; apply nodes_kept |].
  split; [intros i n; apply nodes_kept |].
  split; [intros p q; apply read_kept |].
  split; [intros err x; apply read_error_kept |].
  split; [apply new_address_free |].
  split.
  { subst a b r2 s1 r1. simpl. rewrite length_app. simpl. intros [= H]. lia. }
  split; [exact Ha1 |]. split; [exact Ha2 |]. split; [exact Hb2 |].
  intros Hk.
  rewrite (Get_of_reference s1 a _ k Ha1), (Get_of_reference s2 a _ k Ha2),
    (Get_of_reference s2 b _ k Hb2).
  rewrite !Get_newest_pair by exact Hk.
  unfold Store.node_Get. rewrite Ha2, Hb2. simpl. rewrite Hk. auto.
Qed.

Lemma WithValue_keeps_receiver_witness :
  let r1 := Store.WithValue [] (Store.From (Store.h_opaque
              {| f_Error := "hello"; f_Get := None;
                 f_Stacktrace := None; f_Format := None |}))
              (IString "foo") (IString "bar") in
  let r2 := Store.WithValue (snd r1) (fst r1) (IString "foo") (IString "baz") in
  Store.Get (snd r2) (Store.h_prop (fst r1)) (IString "foo")
    = Some (Ok (IString "bar", true)) /\
  Store.Get (snd r2) (Store.h_prop (fst r2)) (IString "foo")
    = Some (Ok (IString "baz", true)).
Proof.
  pose proof (WithValue_keeps_receiver []
                (Store.h_opaque {| f_Error := "hello"; f_Get := None;
                                   f_Stacktrace := None; f_Format := None |})
                (Examples.New "hello")
                (IString "foo") (IString "bar") (IString "baz") eq_refl) as H.
  destruct H as (_ & _ & _ & _ & _ & _ & _ & _ & _ & H).
  destruct (H eq_refl) as (_ & Ha & Hb & _).
  split; [exact Ha | exact Hb].
Defined.

(** C5, as stated, fails for a key of an uncomparable type: querying [a]
    for the key panics instead of yielding [v1]. *)
Lemma WithValue_keeps_receiver_fails :
  let r1 := Store.WithValue [] (Store.From (Store.h_opaque
              {| f_Error := "hello"; f_Get := None;
                 f_Stacktrace := None; f_Format := None |}))
              (ISlice [1]) (IString "bar") in
  let r2 := Store.WithValue (snd r1) (fst r1) (ISlice [1]) (IString "baz") in
  Store.Get (snd r2) (Store.h_prop (fst r1)) (ISlice [1])
    = Some (Panic UncomparableType) /\
  Store.Get (snd r2) (Store.h_prop (fst r1)) (ISlice [1])
    <> Some (Ok (IString "bar", true)).
Proof.
  split; [reflexivity |]. vm_compute. discriminate.
Qed.

(** ** What the lookup returns *)

Lemma Get_nil (key : iface) : Get nil_error key = notFound.
Proof. rewrite Get_step. reflexivity. Qed.

Lemma Get_miss (err : error) (key val : iface) :
  Get err key = Ok (val, false) -> val = INil.
Proof.
  funelim (Get err key); unfold notFound; intros Hr;
    try discriminate; try (injection Hr as <-; reflexivity).
  auto.
Qed.

(** [Get] (line 103) has three outcomes: a panic, a value with [true], or
    the nil value with [false].  A miss never carries a value, also when an
    error's own [Get] reports a miss together with some value. *)
Theorem Get_miss_is_nil (err : error) (key : iface) :
  (exists p, Get err key = Panic p) \/
  (exists val, Get err key = Ok (val, true)) \/
  Get err key = Ok (INil, false).
Proof.
  destruct (Get err key) as [[val [|]] | p] eqn:E.
  - right. left. exists val. reflexivity.
  - right. right. rewrite (Get_miss err key val E). reflexivity.
  - left. exists p. reflexivity.
Qed.

(** [GetOptional] (line 123) returns the value [Get] returns, found or not,
    and panics where [Get] does; so a key set to nil and a key that is not
    set give the same answer. *)
Theorem GetOptional_is_value_of_Get (err : error) (key : iface) :
  GetOptional err key = bind (Get err key) (fun r => Ok (fst r)) /\
  (forall p,
     iface_eq key key = Ok true ->
     GetOptional (prop (WithValue p key INil)) key = Ok INil /\
     GetOptional nil_error key = Ok INil).
Proof.
  split.
  - unfold GetOptional.
    destruct (Get err key) as [[val [|]] |] eqn:E; simpl; [reflexivity | | reflexivity].
    rewrite (Get_miss err key val E). reflexivity.
  - intros p Hk. unfold GetOptional.
    rewrite (Get_newest_pair p key INil Hk), Get_nil. split; reflexivity.
Qed.

Lemma GetOptional_is_value_of_Get_witness :
  GetOptional (prop (WithValue (From (Examples.New "fail")) (IString "id") INil))
    (IString "id") = Ok INil /\
  GetOptional nil_error (IString "id") = Ok INil.
Proof.
  apply (proj2 (GetOptional_is_value_of_Get nil_error (IString "id"))
           (From (Examples.New "fail"))).
  reflexivity.
Defined.

(** ** Cause and stack trace *)

Lemma PropError_Stacktrace_wrapped (p : PropError) :
  PropError_Stacktrace p = PropError_Stacktrace (baseError (wrapped_error p)).
Proof. induction p; simpl; auto. Qed.

(** [Cause()] (line 136) of a decorated error is the cause of the error it
    was made from, whatever pairs were added, and nil when that error has no
    [Cause] method or is nil; decorating adds no cause and hides none. *)
Theorem Cause_passes_through (e : error) (kvs : list (iface * iface)) :
  PropError_Cause (decorate (From e) kvs)
    = match hasCause e with
      | Some cause => cause
      | None => nil_error
      end /\
  hasCause (prop (decorate (From e) kvs))
    = Some (PropError_Cause (From e)) /\
  (forall x cause,
     PropError_Cause (decorate (From (wrapping x cause)) kvs) = cause) /\
  (forall x, PropError_Cause (decorate (From (opaque x)) kvs) = nil_error) /\
  (forall p, PropError_Cause (decorate (From (prop p)) kvs) = PropError_Cause p).
Proof.
  assert (H : forall err, PropError_Cause (decorate (From err) kvs)
                          = PropError_Cause (From err)).
  { intros err. rewrite PropError_Cause_wrapped, wrapped_error_decorate.
    reflexivity. }
  split; [apply H |]. split; [simpl; rewrite H; reflexivity |].
  split; [intros; apply H |]. split; intros; apply H.
Qed.

(** [Stacktrace()] (line 143) of a decorated error is the stack trace of the
    error it was made from, whatever pairs were added, and the nil slice
    when that error has no [Stacktrace] method or is nil. *)
Theorem Stacktrace_passes_through (e : error) (kvs : list (iface * iface)) :
  PropError_Stacktrace (decorate (From e) kvs)
    = match hasStacktrace e with
      | Some st => st
      | None => None
      end /\
  hasStacktrace (prop (decorate (From e) kvs))
    = Some (PropError_Stacktrace (From e)) /\
  (forall x,
     PropError_Stacktrace (decorate (From (opaque x)) kvs)
       = match f_Stacktrace x with Some st => st | None => None end) /\
  PropError_Stacktrace (decorate (From nil_error) kvs) = None /\
  (forall p,
     PropError_Stacktrace (decorate (From (prop p)) kvs) = PropError_Stacktrace p).
Proof.
  assert (H : forall err, PropError_Stacktrace (decorate (From err) kvs)
                          = PropError_Stacktrace (From err)).
  { intros err. rewrite PropError_Stacktrace_wrapped, wrapped_error_decorate.
    reflexivity. }
  split; [apply H |]. split; [simpl; rewrite H; reflexivity |].
  split; [intros; apply H |]. split; [apply H |]. intros; apply H.
Qed.

(** ** Lookup through decorators and wrappers *)

(** [From] alone changes no lookup. *)
Lemma Get_From (err : error) (key : iface) :
  Get (prop (From err)) key = Get err key.
Proof.
  rewrite Get_prop, (Get_step err).
  destruct err as [| x | x cause | p]; simpl.
  - apply Get_nil.
  - unfold ownValue. simpl.
    destruct (f_Get x) as [get |]; simpl;
      [destruct (snd (get key)) |]; try reflexivity; apply Get_nil.
  - unfold ownValue. simpl.
    destruct (f_Get x) as [get |]; simpl;
      [destruct (snd (get key)) |]; reflexivity.
  - unfold ownValue. simpl.
    destruct (PropError_Get p key) as [[val [|]] |]; reflexivity.
Qed.

(** Pairs whose keys differ from [key] change no lookup. *)
Lemma Get_skips_pairs (p : PropError) (kvs : list (iface * iface)) (key : iface) :
  Forall (fun kv => iface_eq key (fst kv) = Ok false) kvs ->
  PropError_Get (decorate p kvs) key = PropError_Get p key /\
  Get (prop (decorate p kvs)) key = Get (prop p) key.
Proof.
  intros Hkvs.
  assert (H : PropError_Get (decorate p kvs) key = PropError_Get p key).
  { rewrite !PropError_Get_chain, pairs_decorate, wrapped_error_decorate.
    apply firstMatch_skip. apply List.Forall_rev. exact Hkvs. }
  split; [exact H |].
  rewrite !Get_prop, H.
  rewrite (PropError_Cause_wrapped (decorate p kvs)), wrapped_error_decorate.
  rewrite <- PropError_Cause_wrapped. reflexivity.
Qed.

(** Wrapping an error with [From] changes no lookup (the tests say
    "wrapping with another PropError shouldn't change the results"): for
    every error, nil or not, and every key, [Get] and [GetOptional] on
    [From(err)] give what they give on [err], panics included. *)
Theorem From_changes_no_lookup (err : error) (key : iface) :
  Get (prop (From err)) key = Get err key /\
  GetOptional (prop (From err)) key = GetOptional err key /\
  Get (prop (From (prop (From err)))) key = Get err key.
Proof.
  split; [apply Get_From |].
  split; [unfold GetOptional; rewrite Get_From; reflexivity |].
  rewrite !Get_From. reflexivity.
Qed.

(** A key that differs from every key added to an error is looked up as on
    the error itself: the method [Get] (line 179) passes it down the chain
    and [Get] (line 103) goes on to the same cause.  Only keys are compared,
    never values. *)
Theorem Get_ignores_other_keys (err : error) (p : PropError)
    (kvs : list (iface * iface)) (key : iface) :
  Forall (fun kv => iface_eq key (fst kv) = Ok false) kvs ->
  PropError_Get (decorate p kvs) key = PropError_Get p key /\
  Get (prop (decorate p kvs)) key = Get (prop p) key /\
  Get (prop (decorate (From err) kvs)) key = Get err key.
Proof.
  intros Hkvs.
  destruct (Get_skips_pairs p kvs key Hkvs) as [Hm Hg].
  split; [exact Hm |]. split; [exact Hg |].
  rewrite (proj2 (Get_skips_pairs (From err) kvs key Hkvs)). apply Get_From.
Qed.

Lemma Get_ignores_other_keys_witness :
  Get (prop (decorate (From (Examples.New "hello")) [(IString "foo", IString "bar")]))
      (IString "bar")
    = Get (Examples.New "hello") (IString "bar").
Proof.
  apply (Get_ignores_other_keys (Examples.New "hello") (From nil_error)
           [(IString "foo", IString "bar")] (IString "bar")).
  repeat constructor.
Defined.

Lemma Get_wrapAll (xs : list Foreign) (inner : error) (key : iface) :
  Forall (foreignMiss key) xs -> Get (wrapAll xs inner) key = Get inner key.
Proof.
  induction 1 as [| x xs Hx _ IH]; simpl; [reflexivity |].
  rewrite Get_step. simpl. unfold ownValue. simpl.
  unfold foreignMiss in Hx. destruct (f_Get x) as [get |]; simpl.
  - rewrite Hx. exact IH.
  - exact IH.
Qed.

(** A property is found through any number of wrappers from outside the
    package that have a cause and do not hold the key themselves, also when
    the whole is wrapped by [From] and given pairs with other keys. *)
Theorem Get_through_wrappers (xs : list Foreign) (inner : error)
    (kvs : list (iface * iface)) (key : iface) :
  Forall (foreignMiss key) xs ->
  Forall (fun kv => iface_eq key (fst kv) = Ok false) kvs ->
  Get (wrapAll xs inner) key = Get inner key /\
  Get (prop (decorate (From (wrapAll xs inner)) kvs)) key = Get inner key.
Proof.
  intros Hxs Hkvs. split; [apply Get_wrapAll; exact Hxs |].
  rewrite (proj2 (Get_skips_pairs (From (wrapAll xs inner)) kvs key Hkvs)).
  rewrite Get_From. apply Get_wrapAll. exact Hxs.
Qed.

Lemma Get_through_wrappers_witness :
  let cause := prop (WithValue (From (Examples.New "root cause"))
                       (IString "foo") (IString "bar")) in
  let plain := {| f_Error := "wrap"; f_Get := None;
                  f_Stacktrace := None; f_Format := None |} in
  Get (prop (decorate (From (wrapAll [plain; plain] cause)) [])) (IString "foo")
    = Get cause (IString "foo").
Proof.
  intros cause plain.
  apply (Get_through_wrappers [plain; plain] cause [] (IString "foo")).
  - repeat constructor.
  - constructor.
Defined.

(** ** The causes a lookup visits *)

Lemma causes_step (err : error) :
  causes err =
  if is_nil err then []
  else err :: match hasCause err with
              | Some cause => causes cause
              | None => []
              end.
Proof.
  funelim (causes err);
    repeat match goal with
           | H : is_nil _ = _ |- _ => rewrite H
           | H : hasCause _ = _ |- _ => rewrite H
           end;
    reflexivity.
Qed.

Lemma Get_firstOwn (err : error) (key : iface) :
  Get err key = firstOwn key (causes err).
Proof.
  funelim (Get err key); rewrite causes_step;
    repeat match goal with
           | H : is_nil _ = _ |- _ => rewrite H
           | H : hasCause _ = _ |- _ => rewrite H
           end;
    simpl;
    repeat match goal with
           | H : ownValue _ _ = _ |- _ => rewrite H
           end;
    auto.
Qed.

Lemma firstOwn_found (key val : iface) (errs : list error) :
  firstOwn key errs = Ok (val, true) ->
  exists before err after,
    errs = before ++ err :: after /\
    ownValue err key = Ok (Some val) /\
    Forall (fun e => ownValue e key = Ok None) before.
Proof.
  induction errs as [| e errs IH]; simpl; [discriminate |].
  destruct (ownValue e key) as [[v |] | p] eqn:E; intros H.
  - injection H as <-. exists [], e, errs. repeat split; [exact E | constructor].
  - destruct (IH H) as (before & err & after & -> & Hown & Hbefore).
    exists (e :: before), err, after. repeat split; [exact Hown |].
    constructor; assumption.
  - discriminate.
Qed.

(** [Get] (line 103) is a scan of the causes: it visits [err], its cause,
    the cause of that, and returns the first own value it meets.  So a value
    it finds is held by one of these errors, and no error before that one
    holds the key. *)
Theorem Get_scans_causes (err : error) (key : iface) :
  Get err key = firstOwn key (causes err) /\
  (forall val,
     Get err key = Ok (val, true) ->
     exists before holder after,
       causes err = before ++ holder :: after /\
       ownValue holder key = Ok (Some val) /\
       Forall (fun e => ownValue e key = Ok None) before).
Proof.
  split; [apply Get_firstOwn |].
  intros val H. apply firstOwn_found. rewrite <- Get_firstOwn. exact H.
Qed.

Lemma Get_scans_causes_witness :
  exists before holder after,
    causes Examples.wrapped = before ++ holder :: after /\
    ownValue holder (IString "key") = Ok (Some (IString "wrappedValue")) /\
    Forall (fun e => ownValue e (IString "key") = Ok None) before.
Proof.
  apply (proj2 (Get_scans_causes Examples.wrapped (IString "key"))
           (IString "wrappedValue")).
  reflexivity.
Defined.

(** ** Formatting without pairs, nested, and under other flags *)

Section FormattingMore.
Context {printer : Printer}.
Local Open Scope string_scope.

(** [Format] (line 161) of [From(e)] without pairs writes no bracket
    section.  Around a decorated error it writes what that error writes
    under the same state and verb; around an error that is no formatter it
    writes the error's plain text, its message or [<nil>], whatever the
    flags and the verb; and under the verb [v] without flags it writes what
    [fmt] writes for [e]. *)
Theorem Format_of_From (f : State) (c : rune) :
  (forall p, PropError_Format (From (prop p)) f c = PropError_Format p f c) /\
  (forall err, hasFormatter err = None ->
     PropError_Format (From err) f c = Fprint err) /\
  (forall x, f_Format x = None ->
     PropError_Format (From (opaque x)) f c = f_Error x) /\
  PropError_Format (From nil_error) f c = "<nil>" /\
  (forall err, PropError_Format (From err) plainState verb_v = Fprint err).
Proof.
  split; [reflexivity |].
  split; [intros err H; unfold PropError_Format; simpl; rewrite H; reflexivity |].
  split; [intros x H; unfold PropError_Format; simpl; rewrite H; reflexivity |].
  split; [reflexivity |].
  intros err. apply formatBaseError_plain.
Qed.

(** A decorated error made from a decorated error writes one bracket
    section for each of the two: its own pairs, newest first, and then what
    the inner error writes, under the same state and verb. *)
Theorem Format_nested (q : PropError) (kvs : list (iface * iface))
    (k v : iface) (f : State) (c : rune) :
  PropError_Format (WithValue (decorate (From (prop q)) kvs) k v) f c
    = "[" ++ join "," (map (pairText f c) ((k, v) :: rev kvs))
          ++ "] " ++ PropError_Format q f c.
Proof.
  unfold PropError_Format at 1. unfold Format_body, WithValue.
  rewrite formatInner_pairs, pairs_decorate.
  change (pairs (From (prop q))) with (@nil (iface * iface)).
  rewrite app_nil_r.
  change (PropError_formatBaseError
            (keyValueError (decorate (From (prop q)) kvs) k v) f c)
    with (PropError_formatBaseError (decorate (From (prop q)) kvs) f c).
  rewrite formatBaseError_wrapped, wrapped_error_decorate. reflexivity.
Qed.

Lemma verbFormat_flags (f g : State) (c : rune) :
  Flag f flag_plus = Flag g flag_plus ->
  (Flag f flag_plus = false -> Flag f flag_sharp = Flag g flag_sharp) ->
  verbFormat f c = verbFormat g c.
Proof.
  unfold verbFormat. intros Hp Hs. rewrite <- Hp.
  destruct (Flag f flag_plus); [reflexivity |].
  rewrite <- (Hs eq_refl). reflexivity.
Qed.

(** The pairs are written from the plus flag, the sharp flag and the verb
    alone (lines 203-212): two states that agree on the plus flag, and on
    the sharp flag when plus is not set, give the same text, whatever their
    width, precision and other flags. *)
Theorem pairs_ignore_width_and_other_flags (f g : State) (c : rune)
    (prev : PropError) (key value : iface) :
  Flag f flag_plus = Flag g flag_plus ->
  (Flag f flag_plus = false -> Flag f flag_sharp = Flag g flag_sharp) ->
  verbFormat f c = verbFormat g c /\
  formatInner prev key value f c = formatInner prev key value g c.
Proof.
  intros Hp Hs.
  pose proof (verbFormat_flags f g c Hp Hs) as Hv. split; [exact Hv |].
  revert key value. induction prev as [err | prev IH k v]; intros key value; simpl.
  - rewrite Hv. reflexivity.
  - rewrite Hv, IH. reflexivity.
Qed.

End FormattingMore.

Lemma pairs_ignore_width_and_other_flags_witness :
  let padded := {| Flag := fun c => (c =? flag_plus)%Z || (c =? 45)%Z;
                   Width := Some 10; Precision := Some 3 |} in
  formatInner (From (Examples.New "fail")) (IString "id") (IInt 42) padded verb_v
    = formatInner (From (Examples.New "fail")) (IString "id") (IInt 42)
        (Examples.flags true true) verb_v.
Proof.
  intros padded.
  apply (@pairs_ignore_width_and_other_flags SimplePrinter.simple
           padded (Examples.flags true true) verb_v).
  - reflexivity.
  - discriminate.
Defined.

(** ** Chains in the store *)

Lemma Store_decorate_snoc (s : Store.store) (p : Store.href)
    (kvs : list (iface * iface)) (k v : iface) :
  Store.decorate s p (kvs ++ [(k, v)])
    = Store.WithValue (snd (Store.decorate s p kvs))
        (fst (Store.decorate s p kvs)) k v.
Proof. unfold Store.decorate. rewrite fold_left_app. reflexivity. Qed.

Lemma decorate_last (q : PropError) (kvs : list (iface * iface)) (k v : iface) :
  decorate q (kvs ++ [(k, v)]) = keyValueError (decorate q kvs) k v.
Proof. unfold decorate. rewrite fold_left_app. reflexivity. Qed.

(** Successive calls of [WithValue] (lines 157 and 186) build the chain one
    node at a time: after [n] calls on a receiver that stands for [q], the
    result stands for [q] with the [n] pairs in the order of the calls, [n]
    nodes were allocated, and every node and every reference of the store
    before the calls is as it was. *)
Theorem WithValue_calls_build_chain (s : Store.store) (p : Store.href)
    (q : PropError) (kvs : list (iface * iface)) :
  Store.read s p = Some q ->
  let r := Store.decorate s p kvs in
  Store.read (snd r) (fst r) = Some (decorate q kvs) /\
  length (snd r) = (length s + length kvs)%nat /\
  (forall i n, s !! i = Some n -> snd r !! i = Some n) /\
  (forall p' q', Store.read s p' = Some q' -> Store.read (snd r) p' = Some q').
Proof.
  intros Hp. induction kvs as [| [k v] kvs IH] using rev_ind; simpl.
  - repeat split; [exact Hp | simpl; lia | auto | auto].
  - destruct IH as (Hread & Hlen & Hnodes & Hrefs).
    rewrite Store_decorate_snoc, decorate_last.
    split; [apply read_new; exact Hread |].
    split; [simpl; rewrite !length_app, Hlen; simpl; lia |].
    split.
    + intros i n Hi. apply nodes_kept. apply Hnodes. exact Hi.
    + intros p' q' Hq. apply read_kept. apply Hrefs. exact Hq.
Qed.

Lemma WithValue_calls_build_chain_witness :
  let hello := Store.h_opaque {| f_Error := "hello"; f_Get := None;
                                 f_Stacktrace := None; f_Format := None |} in
  let r := Store.decorate [] (Store.From hello)
             [(IString "foo", IString "baz"); (IString "key", IString "value")] in
  Store.read (snd r) (fst r)
    = Some (decorate (From (Examples.New "hello"))
              [(IString "foo", IString "baz"); (IString "key", IString "value")]) /\
  length (snd r) = 2%nat.
Proof.
  intros hello r.
  destruct (WithValue_calls_build_chain [] (Store.From hello)
              (From (Examples.New "hello"))
              [(IString "foo", IString "baz"); (IString "key", IString "value")]
              eq_refl) as (Hread & Hlen & _).
  split; [exact Hread | exact Hlen].
Defined.

(** Two chains made from one receiver share it and do not see each other:
    after [b1 := a.WithValue(k1, v1)] and [b2 := a.WithValue(k2, v2)], [a]
    stands for what it stood for, [b1] and [b2] are different nodes that
    both have [a] as predecessor, and a key other than [k1] is looked up on
    [b1] as on [a], whatever [k2] and [v2] are. *)
Theorem sibling_chains_are_independent (s : Store.store) (a : Store.href)
    (q : PropError) (k1 v1 k2 v2 : iface) :
  Store.read s a = Some q ->
  let r1 := Store.WithValue s a k1 v1 in
  let r2 := Store.WithValue (snd r1) a k2 v2 in
  let s2 := snd r2 in
  Store.read s2 a = Some q /\
  Store.read s2 (fst r1) = Some (keyValueError q k1 v1) /\
  Store.read s2 (fst r2) = Some (keyValueError q k2 v2) /\
  fst r1 <> fst r2 /\
  (forall key,
     iface_eq key k1 = Ok false ->
     Store.node_Get s2 (fst r1) key = Store.node_Get s a key /\
     Store.Get s2 (Store.h_prop (fst r1)) key = Store.Get s (Store.h_prop a) key).
Proof.
  intros Ha r1 r2 s2.
  assert (Ha1 : Store.read (snd r1) a = Some q) by (apply read_kept; exact Ha).
  assert (Ha2 : Store.read s2 a = Some q) by (apply read_kept; exact Ha1).
  assert (Hb1 : Store.read s2 (fst r1) = Some (keyValueError q k1 v1))
    by (apply read_kept, read_new; exact Ha).
  assert (Hb2 : Store.read s2 (fst r2) = Some (keyValueError q k2 v2))
    by (apply read_new; exact Ha1).
  split; [exact Ha2 |]. split; [exact Hb1 |]. split; [exact Hb2 |].
  split.
  { subst r1 r2. simpl. rewrite length_app. simpl. intros [= H]. lia. }
  intros key Hkey. split.
  - unfold Store.node_Get. rewrite Hb1, Ha. simpl. rewrite Hkey. reflexivity.
  - rewrite (Get_of_reference s2 (fst r1) _ key Hb1),
      (Get_of_reference s a _ key Ha).
    f_equal.
    apply (Get_skips_pairs q [(k1, v1)] key).
    constructor; [exact Hkey | constructor].
Qed.

Lemma sibling_chains_are_independent_witness :
  let hello := Store.h_opaque {| f_Error := "hello"; f_Get := None;
                                 f_Stacktrace := None; f_Format := None |} in
  let r0 := Store.WithValue [] (Store.From hello) (IString "foo") (IString "bar") in
  let r1 := Store.WithValue (snd r0) (fst r0) (IString "foo") (IString "baz") in
  let r2 := Store.WithValue (snd r1) (fst r0) (IString "key") (IString "value") in
  Store.read (snd r2) (fst r0)
    = Some (WithValue (From (Examples.New "hello")) (IString "foo") (IString "bar")) /\
  fst r1 <> fst r2.
Proof.
  intros hello r0 r1 r2.
  destruct (sibling_chains_are_independent (snd r0) (fst r0)
              (WithValue (From (Examples.New "hello")) (IString "foo") (IString "bar"))
              (IString "foo") (IString "baz") (IString "key") (IString "value")
              eq_refl) as (Ha & _ & _ & Hne & _).
  split; [exact Ha | exact Hne].
Defined.

(** ** [From] in the middle of a chain *)

Lemma firstMatch_app (key : iface) (kvs rest : list (iface * iface))
    (miss : result (iface * bool)) :
  firstMatch key (kvs ++ rest) miss = firstMatch key kvs (firstMatch key rest miss).
Proof.
  induction kvs as [| [k v] kvs IH]; simpl; [reflexivity |].
  destruct (iface_eq key k) as [[|] | p]; simpl; [reflexivity | exact IH | reflexivity].
Qed.

(** Decorating [From(d)] for a decorated error [d] keeps the pairs of [d] in
    reach of the method [Get] (lines 150 and 179): for every key, the new
    chain answers as if its pairs had been added to [d] directly, and the
    function [Get] and [Cause()] agree as well. *)
Theorem From_keeps_inner_pairs (d : PropError) (kvs : list (iface * iface))
    (key : iface) :
  PropError_Get (decorate (From (prop d)) kvs) key
    = PropError_Get (decorate d kvs) key /\
  PropError_Cause (decorate (From (prop d)) kvs)
    = PropError_Cause (decorate d kvs) /\
  Get (prop (decorate (From (prop d)) kvs)) key
    = Get (prop (decorate d kvs)) key.
Proof.
  assert (Hm : PropError_Get (decorate (From (prop d)) kvs) key
               = PropError_Get (decorate d kvs) key).
  { rewrite !PropError_Get_chain, !pairs_decorate, !wrapped_error_decorate.
    rewrite !firstMatch_app. simpl. unfold wrappedGet at 1. simpl.
    rewrite (PropError_Get_chain d). reflexivity. }
  assert (Hc : PropError_Cause (decorate (From (prop d)) kvs)
               = PropError_Cause (decorate d kvs)).
  { rewrite (PropError_Cause_wrapped (decorate (From (prop d)) kvs)),
      (PropError_Cause_wrapped (decorate d kvs)), !wrapped_error_decorate.
    simpl. apply PropError_Cause_wrapped. }
  split; [exact Hm |]. split; [exact Hc |].
  rewrite !Get_prop, Hm, Hc. reflexivity.
Qed.
